(** * Equation solver (src/main.py): a shallow embedding and its properties

    The program is a Kivy form (two check boxes, a text input, a result
    label) whose [solve] method drives SymPy: it strips the text, splits it at
    the first [=], parses both sides, checks the degree against the selected
    equation type, solves, and formats the roots.

    Conventions of the embedding:
    - a Python [str] is a Rocq [string] holding its UTF-8 encoding, so the
      Cyrillic messages are written as in the source;
    - the widget fields read or written by the methods form the record
      [EquationSolver]; methods are computations in a state-and-exception
      monad over that record;
    - SymPy is not part of the repository: its entry points are the fields of
      the class [SymPy], and every statement about the methods is proved for
      an arbitrary instance; where a statement is about the value of a root,
      what SymPy's arithmetic is relied on for is spelled out as the contract
      [lawful], which the computing instance [Mini] is proved to keep;
    - an exception carries the name of its class: [solve] catches instances
      of [Exception] only, [format_solution] everything. *)

From Stdlib Require Import String Ascii List Bool ZArith Lia.
From Stdlib Require Import QArith Qabs Reals Qreals Lra DecimalString.
From ExtLib Require Import Structures.Monad Structures.MonadState
  Structures.MonadExc Structures.MonadTrans
  Data.Monads.StateMonad Data.Monads.EitherMonad.
Import ListNotations.
Import MonadNotation.
Close Scope R_scope.
Close Scope Q_scope.
Local Open Scope monad_scope.
Local Open Scope string_scope.
#[local] Existing Instance Monad_stateT.

(** ** Python strings *)

Module PyStr.

(** A byte string given by its byte values. *)
Definition bytes (l : list nat) : string :=
  string_of_list_ascii (map ascii_of_nat l).

(** The line feed of the f-strings ([\n]). *)
Definition nl : string := bytes [10].

(** UTF-8 encodings of the code points for which [str.isspace] holds:
    U+0009..U+000D, U+001C..U+001F, U+0020, U+0085, U+00A0, U+1680,
    U+2000..U+200A, U+2028, U+2029, U+202F, U+205F, U+3000. *)
Definition whitespace : list string :=
  map bytes
    [ [9]; [10]; [11]; [12]; [13]; [28]; [29]; [30]; [31]; [32];
      [194; 133]; [194; 160];
      [225; 154; 128];
      [226; 128; 128]; [226; 128; 129]; [226; 128; 130]; [226; 128; 131];
      [226; 128; 132]; [226; 128; 133]; [226; 128; 134]; [226; 128; 135];
      [226; 128; 136]; [226; 128; 137]; [226; 128; 138];
      [226; 128; 168]; [226; 128; 169]; [226; 128; 175];
      [226; 129; 159];
      [227; 128; 128] ].

(** [drop_prefix p s] is [Some rest] when [s = p ++ rest]. *)
Fixpoint drop_prefix (p s : string) : option string :=
  match p, s with
  | EmptyString, _ => Some s
  | String a p', String b s' =>
      if Ascii.eqb a b then drop_prefix p' s' else None
  | String _ _, EmptyString => None
  end.

(** Remove the first pattern of [ps] that is a prefix of [s]. *)
Fixpoint drop_any (ps : list string) (s : string) : option string :=
  match ps with
  | [] => None
  | p :: ps' =>
      match drop_prefix p s with
      | Some rest => Some rest
      | None => drop_any ps' s
      end
  end.

Fixpoint lstrip_fuel (ps : list string) (fuel : nat) (s : string) : string :=
  match fuel with
  | O => s
  | S fuel' =>
      match drop_any ps s with
      | Some rest => lstrip_fuel ps fuel' rest
      | None => s
      end
  end.

Definition rev (s : string) : string :=
  string_of_list_ascii (List.rev (list_ascii_of_string s)).

(** [str.lstrip()], [str.rstrip()] and [str.strip()] without argument. *)
Definition lstrip (s : string) : string :=
  lstrip_fuel whitespace (String.length s) s.

Definition rstrip (s : string) : string :=
  rev (lstrip_fuel (map rev whitespace) (String.length s) (rev s)).

Definition strip (s : string) : string := rstrip (lstrip s).

(** A string that is a concatenation of patterns of [ps]. *)
Inductive made_of (ps : list string) : string -> Prop :=
| made_of_nil : made_of ps ""
| made_of_app (p s : string) :
    In p ps -> made_of ps s -> made_of ps (p ++ s).

(** A run of whitespace characters. *)
Definition blank : string -> Prop := made_of whitespace.

(** [s] neither starts nor ends with a whitespace character. *)
Definition trimmed (s : string) : Prop :=
  drop_any whitespace s = None
  /\ drop_any (map rev whitespace) (rev s) = None.

(** [not s] for a string: true exactly on the empty string. *)
Definition is_empty (s : string) : bool :=
  match s with
  | EmptyString => true
  | String _ _ => false
  end.

(** [c in s] for a one-character [c]. *)
Fixpoint contains (c : ascii) (s : string) : bool :=
  match s with
  | EmptyString => false
  | String a s' => Ascii.eqb a c || contains c s'
  end.

(** The two parts of [s] around the first occurrence of [sep]. *)
Fixpoint split_first (sep : ascii) (s : string) : option (string * string) :=
  match s with
  | EmptyString => None
  | String a s' =>
      if Ascii.eqb a sep then Some (EmptyString, s')
      else
        match split_first sep s' with
        | Some (l, r) => Some (String a l, r)
        | None => None
        end
  end.

(** [s.split(sep, 1)] for a one-character [sep]: one or two pieces. *)
Definition split1 (s : string) (sep : ascii) : list string :=
  match split_first sep s with
  | Some (l, r) => [l; r]
  | None => [s]
  end.

End PyStr.

(** ** Exceptions *)

(** A raised exception: the name of its class and what [str(e)] returns.
    Any exception can be raised inside a method: the [ValueError]s of [solve],
    the errors of SymPy ([SyntaxError], [TypeError], [PolynomialError], ...),
    and also [SystemExit] or [KeyboardInterrupt], since [parse_expr]
    evaluates the typed text. *)
Record exn : Type := mkExn { exn_class : string; exn_str : string }.

(** The built-in classes that derive from [BaseException] without deriving
    from [Exception]. *)
Definition outside_Exception : list string :=
  ["BaseException"; "SystemExit"; "KeyboardInterrupt"; "GeneratorExit";
   "CancelledError"].

(** [isinstance(e, Exception)] *)
Definition is_Exception (e : exn) : bool :=
  negb (existsb (String.eqb (exn_class e)) outside_Exception).

Definition ValueError (msg : string) : exn := mkExn "ValueError" msg.

(** ** Widget state *)

(** The fields of the form that the methods read or write:
    [self.linear_check.active], [self.quadratic_check.active],
    [self.equation_input.text] and [self.result_label.text]. *)
Record EquationSolver : Type := mkEquationSolver {
  linear_check_active : bool;
  quadratic_check_active : bool;
  equation_input_text : string;
  result_label_text : string
}.

Definition set_linear_check_active (v : bool) (w : EquationSolver) :=
  mkEquationSolver v (quadratic_check_active w)
                   (equation_input_text w) (result_label_text w).

Definition set_quadratic_check_active (v : bool) (w : EquationSolver) :=
  mkEquationSolver (linear_check_active w) v
                   (equation_input_text w) (result_label_text w).

Definition set_equation_input_text (t : string) (w : EquationSolver) :=
  mkEquationSolver (linear_check_active w) (quadratic_check_active w)
                   t (result_label_text w).

Definition set_result_label_text (t : string) (w : EquationSolver) :=
  mkEquationSolver (linear_check_active w) (quadratic_check_active w)
                   (equation_input_text w) t.

(** Methods run in a state monad over the widget with exceptions. *)
Definition py : Type -> Type := stateT EquationSolver (sum exn).

Definition run {A} (c : py A) (w : EquationSolver) : exn + (A * EquationSolver) :=
  runStateT c w.

(** Assignment to a field of [self]. *)
Definition assign (f : EquationSolver -> EquationSolver) : py unit :=
  w <- get ;; put (f w).

(** The two check boxes, and the other widgets that can be the [instance]
    argument of a callback. *)
Inductive Widget : Type :=
| linear_check
| quadratic_check
| solve_button
| clear_button.

Definition Widget_eqb (a b : Widget) : bool :=
  match a, b with
  | linear_check, linear_check
  | quadratic_check, quadratic_check
  | solve_button, solve_button
  | clear_button, clear_button => true
  | _, _ => false
  end.

(** The state built by [__init__]: the linear box is created with
    [active=True], the quadratic one with the default [False]; the input is
    empty and the label shows the placeholder. *)
Definition placeholder : string := "Решение появится здесь".

Definition init : EquationSolver :=
  mkEquationSolver true false "" placeholder.

(** [clear_fields(self, instance)] *)
Definition clear_fields (instance : Widget) : py unit :=
  assign (set_equation_input_text "") ;;
  assign (set_result_label_text placeholder).

(** [on_checkbox_active(self, checkbox, value)].  The stores of [False] made
    here notify the handler again with [value = False], for which it does
    nothing. *)
Definition on_checkbox_active (checkbox : Widget) (value : bool) : py unit :=
  if value then
    if Widget_eqb checkbox linear_check then
      assign (set_quadratic_check_active false)
    else
      assign (set_linear_check_active false)
  else ret tt.

(** The store [checkbox.active = value]. *)
Definition set_active (checkbox : Widget) (value : bool) (w : EquationSolver) :=
  match checkbox with
  | linear_check => set_linear_check_active value w
  | quadratic_check => set_quadratic_check_active value w
  | _ => w
  end.

(** A change of [checkbox.active] made through the interface: Kivy stores
    the new value and then calls the handler bound with
    [bind(active=self.on_checkbox_active)] on the box and the value.  Both
    boxes are created with [group="equation_type"] and without
    [allow_no_selection=False], so the active box can be released. *)
Definition toggle (checkbox : Widget) (value : bool) : py unit :=
  assign (set_active checkbox value) ;;
  on_checkbox_active checkbox value.

Definition is_checkbox (c : Widget) : bool :=
  match c with
  | linear_check | quadratic_check => true
  | _ => false
  end.

(** ** The SymPy interface *)

(** The token transformations exported by [sympy.parsing.sympy_parser]. *)
Inductive transformation : Type :=
| lambda_notation
| auto_symbol
| repeated_decimals
| auto_number
| factorial_notation
| implicit_multiplication_application
| convert_xor
| implicit_application
| implicit_multiplication
| convert_equals_signs
| function_exponentiation
| rationalize
| split_symbols.

Definition transformation_eqb (a b : transformation) : bool :=
  match a, b with
  | lambda_notation, lambda_notation
  | auto_symbol, auto_symbol
  | repeated_decimals, repeated_decimals
  | auto_number, auto_number
  | factorial_notation, factorial_notation
  | implicit_multiplication_application, implicit_multiplication_application
  | convert_xor, convert_xor
  | implicit_application, implicit_application
  | implicit_multiplication, implicit_multiplication
  | convert_equals_signs, convert_equals_signs
  | function_exponentiation, function_exponentiation
  | rationalize, rationalize
  | split_symbols, split_symbols => true
  | _, _ => false
  end.

Definition has_transformation (t : transformation) (ts : list transformation) : bool :=
  existsb (transformation_eqb t) ts.

(** SymPy's constant [standard_transformations]
    (sympy/parsing/sympy_parser.py), which the program imports: the five
    transformations its documentation lists.  [convert_xor], which reads [^]
    as exponentiation, is a separate transformation. *)
Definition standard_transformations : list transformation :=
  [lambda_notation; auto_symbol; repeated_decimals; auto_number;
   factorial_notation].

(** [transformations = standard_transformations +
                       (implicit_multiplication_application,)] *)
Definition transformations : list transformation :=
  standard_transformations ++ [implicit_multiplication_application].

(** What [sp.degree] returns: a SymPy integer, or [-oo] for the zero
    polynomial. *)
Inductive Degree : Type :=
| NegativeInfinity
| Integer (n : Z).

(** [degree > k] and [degree != k] for a Python integer [k]. *)
Definition degree_gt (d : Degree) (k : Z) : bool :=
  match d with
  | NegativeInfinity => false
  | Integer n => (k <? n)%Z
  end.

Definition degree_ne (d : Degree) (k : Z) : bool :=
  match d with
  | NegativeInfinity => true
  | Integer n => negb (n =? k)%Z
  end.

(** The calls the program makes into SymPy.  [Obj] is the type of the Python
    objects SymPy hands back (expressions, numbers); each call that the
    program guards with [try] may raise any exception; [str] of such an
    object is its printed form.  A field gives the outcome of the call made
    in the run under consideration ([parse_expr] evaluates the typed text,
    so its answer is that of this one evaluation): no statement below relies
    on two calls with equal arguments agreeing. *)
Class SymPy : Type := {
  Obj : Type;
  (** [parse_expr(s, transformations=ts)] *)
  parse_expr : string -> list transformation -> exn + Obj;
  (** [lhs - rhs] *)
  sp_sub : Obj -> Obj -> exn + Obj;
  (** [sp.symbols(name)] *)
  sp_symbols : string -> Obj;
  (** [sp.degree(expr, gen)] *)
  sp_degree : Obj -> Obj -> exn + Degree;
  (** [sp.solve(expr, symbol)] *)
  sp_solve : Obj -> Obj -> exn + list Obj;
  (** [sp.N(value, n=digits)] *)
  sp_N : Obj -> nat -> exn + Obj;
  (** [str(value)] *)
  py_str : Obj -> string
}.

(** [equation_type]: the strings ["linear"] and ["quadratic"] of [solve]. *)
Inductive EquationType : Type :=
| linear
| quadratic.

Definition EquationType_eqb (a b : EquationType) : bool :=
  match a, b with
  | linear, linear | quadratic, quadratic => true
  | _, _ => false
  end.

(** Line 144: ["linear" if self.linear_check.active else "quadratic"]. *)
Definition selected_type (w : EquationSolver) : EquationType :=
  if linear_check_active w then linear else quadratic.

(** The text of line 195 for a message: [f"Ошибка: {msg}"]. *)
Definition error_text (msg : string) : string := "Ошибка: " ++ msg.

Section Methods.

Context {sympy : SymPy}.

(** A SymPy call inside a method. *)
Definition call {A} (c : exn + A) : py A := lift c.

(** [format_solution(self, solution)]: the bare [except:] takes every
    exception of the [try] block. *)
Definition format_solution (solution : Obj) : py string :=
  catch
    (numeric_value <- call (sp_N solution 4) ;;
     ret (py_str numeric_value))
    (fun _ => ret (py_str solution)).

(** [solutions[i]] *)
Definition getitem (solutions : list Obj) (i : nat) : py Obj :=
  match nth_error solutions i with
  | Some v => ret v
  | None => raise (mkExn "IndexError" "list index out of range")
  end.

(** [a, b = pieces] *)
Definition unpack2 (pieces : list string) : py (string * string) :=
  match pieces with
  | [a; b] => ret (a, b)
  | [] => raise (ValueError "not enough values to unpack (expected 2, got 0)")
  | [_] => raise (ValueError "not enough values to unpack (expected 2, got 1)")
  | _ => raise (ValueError "too many values to unpack (expected 2)")
  end.

(** Stage 5 of [solve] (lines 176-189): the text for a list of solutions. *)
Definition format_result (equation_type : EquationType)
                         (solutions : list Obj) : py string :=
  match solutions with
  | [] => ret "Уравнение не имеет решений"
  | _ :: _ =>
      match equation_type with
      | quadratic =>
          if Nat.eqb (List.length solutions) 2 then
            s0 <- getitem solutions 0 ;;
            x1_formatted <- format_solution s0 ;;
            s1 <- getitem solutions 1 ;;
            x2_formatted <- format_solution s1 ;;
            ret ("Корни уравнения:" ++ PyStr.nl ++ "x1 = " ++ x1_formatted
                 ++ PyStr.nl ++ "x2 = " ++ x2_formatted)
          else
            s0 <- getitem solutions 0 ;;
            x_formatted <- format_solution s0 ;;
            ret ("Корень уравнения (кратный):" ++ PyStr.nl
                 ++ "x = " ++ x_formatted)
      | linear =>
          s0 <- getitem solutions 0 ;;
          x_formatted <- format_solution s0 ;;
          ret ("Решение уравнения:" ++ PyStr.nl ++ "x = " ++ x_formatted)
      end
  end.

(** Stages 4 and 5 (lines 173-191), from the normalised expression on. *)
Definition solve_expr (equation_type : EquationType) (expr x : Obj) : py unit :=
  solutions <- call (sp_solve expr x) ;;
  result_text <- format_result equation_type solutions ;;
  assign (set_result_label_text result_text).

(** Stage 3 (lines 165-170): the degree against the selected type. *)
Definition check_degree (equation_type : EquationType) (degree : Degree) : py unit :=
  (if EquationType_eqb equation_type linear && degree_gt degree 1 then
     raise (ValueError "Уравнение не линейное (степень > 1)")
   else ret tt) ;;
  (if EquationType_eqb equation_type quadratic && degree_ne degree 2 then
     raise (ValueError "Уравнение не квадратное (степень должна быть 2)")
   else ret tt).

(** Stage 2 (lines 157-159): both sides parsed, and their difference.
    Nothing of the form is read or written here. *)
Definition parse_sides (lhs_str rhs_str : string) : exn + Obj :=
  lhs <- parse_expr lhs_str transformations ;;
  rhs <- parse_expr rhs_str transformations ;;
  sp_sub lhs rhs.

(** Lines 157-191: what [solve] does with the two sides of the equation. *)
Definition solve_sides (equation_type : EquationType)
                       (lhs_str rhs_str : string) : py unit :=
  expr <- call (parse_sides lhs_str rhs_str) ;;
  let x := sp_symbols "x" in
  degree <- call (sp_degree expr x) ;;
  check_degree equation_type degree ;;
  solve_expr equation_type expr x.

(** The [try] block of [solve] (lines 143-191). *)
Definition solve_try : py unit :=
  equation_type <- gets selected_type ;;
  text <- gets equation_input_text ;;
  let eq_text := PyStr.strip text in
  (if PyStr.is_empty eq_text then
     raise (ValueError "Введите уравнение")
   else ret tt) ;;
  (if negb (PyStr.contains "=" eq_text) then
     raise (ValueError "Уравнение должно содержать знак '='")
   else ret tt) ;;
  sides <- unpack2 (PyStr.split1 eq_text "=") ;;
  solve_sides equation_type (fst sides) (snd sides).

(** The handler of [except Exception as e] (line 195). *)
Definition show_error (e : exn) : py unit :=
  assign (set_result_label_text (error_text (exn_str e))).

(** [try: body] with the single clause [except Exception as e: handler]: an
    exception that is not an instance of [Exception] goes on to the caller. *)
Definition except_Exception {A} (body : py A) (handler : exn -> py A) : py A :=
  catch body (fun e => if is_Exception e then handler e else raise e).

(** [solve(self)]: the method takes no argument besides [self]. *)
Definition solve : py unit := except_Exception solve_try show_error.

End Methods.

(** [solve] ended normally with [text] stored in the result label. *)
Definition shown (text : string) (w : EquationSolver)
  : exn + (unit * EquationSolver) :=
  inr (tt, set_result_label_text text w).

(** ** Selection states *)

Definition exactly_one_active (w : EquationSolver) : Prop :=
  xorb (linear_check_active w) (quadratic_check_active w) = true.

Definition at_most_one_active (w : EquationSolver) : Prop :=
  linear_check_active w && quadratic_check_active w = false.

Definition none_active (w : EquationSolver) : Prop :=
  linear_check_active w = false /\ quadratic_check_active w = false.

(** [checkbox] is active and the other box is not. *)
Definition only_active (checkbox : Widget) (w : EquationSolver) : Prop :=
  match checkbox with
  | linear_check =>
      linear_check_active w = true /\ quadratic_check_active w = false
  | quadratic_check =>
      linear_check_active w = false /\ quadratic_check_active w = true
  | _ => False
  end.

Definition is_active (checkbox : Widget) (w : EquationSolver) : bool :=
  match checkbox with
  | linear_check => linear_check_active w
  | quadratic_check => quadratic_check_active w
  | _ => false
  end.

(** The initial form after its active box has been deactivated. *)
Definition nothing_selected : EquationSolver :=
  mkEquationSolver false false "" placeholder.

(** A check-box step: a box is activated, or the active box is deactivated. *)
Inductive toggle_step : EquationSolver -> EquationSolver -> Prop :=
| toggle_activate (c : Widget) (w w' : EquationSolver) :
    is_checkbox c = true ->
    run (toggle c true) w = inr (tt, w') ->
    toggle_step w w'
| toggle_deactivate (c : Widget) (w w' : EquationSolver) :
    is_checkbox c = true ->
    is_active c w = true ->
    run (toggle c false) w = inr (tt, w') ->
    toggle_step w w'.

Section Statements.

Context {sympy : SymPy}.

(** One event of the form: a check-box step, an edit of the input text, a
    call of [clear_fields] or a call of [solve]. *)
Inductive step : EquationSolver -> EquationSolver -> Prop :=
| step_toggle (w w' : EquationSolver) :
    toggle_step w w' ->
    step w w'
| step_type (t : string) (w : EquationSolver) :
    step w (set_equation_input_text t w)
| step_clear (w w' : EquationSolver) :
    run (clear_fields clear_button) w = inr (tt, w') ->
    step w w'
| step_solve (w w' : EquationSolver) :
    run solve w = inr (tt, w') ->
    step w w'.

Inductive reachable : EquationSolver -> Prop :=
| reachable_init : reachable init
| reachable_step (w w' : EquationSolver) :
    reachable w -> step w w' -> reachable w'.

(** The text [solve] leaves in the label is an error report. *)
Definition reports_error (w : EquationSolver) : Prop :=
  exists (w' : EquationSolver) (msg : string),
    run solve w = inr (tt, w')
    /\ result_label_text w' = error_text msg.


(** The string [format_solution] returns for a solution. *)
Definition formatted (solution : Obj) : string :=
  match sp_N solution 4 with
  | inr numeric_value => py_str numeric_value
  | inl _ => py_str solution
  end.

End Statements.

(** ** A recorded SymPy session

    An instance of the interface for the concrete runs below: the answers of
    SymPy, as printed, to the calls [solve] makes on the scenarios of the
    specification (section 8) and on [x = x], [x^2 - 4 = 0] and
    [__import__('sys').exit(0) = 0].  Objects are
    represented by their printed form; a call that is not in the record
    raises. *)
Module Session.

Definition unrecorded {A} : exn + A :=
  inl (mkExn "NotImplementedError" "call outside the recorded session").

Fixpoint lookup {A} (k : string) (t : list (string * A)) : option A :=
  match t with
  | [] => None
  | (k', v) :: t' => if String.eqb k k' then Some v else lookup k t'
  end.

Definition recorded {A} (k : string) (t : list (string * A)) : exn + A :=
  match lookup k t with
  | Some v => inr v
  | None => unrecorded
  end.

Definition parsed : list (string * string) :=
  [ ("3*x + 2 ", "3*x + 2"); (" 0", "0");
    ("x**2 - 4 ", "x**2 - 4");
    ("x**2 - 4*x + 4 ", "x**2 - 4*x + 4");
    ("x + 1 ", "x + 1"); (" x + 2", "x + 2");
    ("x ", "x"); (" x", "x") ].

(** [2x] needs implicit multiplication; [^] is Python's exclusive or unless
    [convert_xor] rewrites it to [**]; the text is evaluated, so a call of
    [sys.exit] in it raises [SystemExit]. *)
Definition parse_expr (s : string) (ts : list transformation) : exn + string :=
  if String.eqb s "2x " then
    if has_transformation implicit_multiplication_application ts
    then inr "2*x"
    else inl (mkExn "SyntaxError" "invalid syntax (<string>, line 1)")
  else if String.eqb s "__import__('sys').exit(0) " then
    inl (mkExn "SystemExit" "0")
  else if String.eqb s "x^2 - 4 " then
    if has_transformation convert_xor ts
    then inr "x**2 - 4"
    else inl (mkExn "TypeError"
                "unsupported operand type(s) for ^: 'Symbol' and 'Integer'")
  else recorded s parsed.

Definition differences : list (string * string) :=
  [ ("3*x + 2|0", "3*x + 2"); ("x**2 - 4|0", "x**2 - 4");
    ("x**2 - 4*x + 4|0", "x**2 - 4*x + 4"); ("2*x|0", "2*x");
    ("x + 1|x + 2", "-1"); ("x|x", "0") ].

Definition sp_sub (a b : string) : exn + string :=
  recorded (a ++ "|" ++ b) differences.

Definition degrees : list (string * Degree) :=
  [ ("3*x + 2", Integer 1); ("x**2 - 4", Integer 2);
    ("x**2 - 4*x + 4", Integer 2); ("2*x", Integer 1);
    ("-1", Integer 0); ("0", NegativeInfinity) ].

Definition sp_degree (e gen : string) : exn + Degree :=
  if String.eqb gen "x" then recorded e degrees else unrecorded.

Definition solutions : list (string * list string) :=
  [ ("3*x + 2", ["-2/3"]); ("x**2 - 4", ["-2"; "2"]);
    ("x**2 - 4*x + 4", ["2"]); ("2*x", ["0"]);
    ("-1", []); ("0", []) ].

Definition sp_solve (e sym : string) : exn + list string :=
  if String.eqb sym "x" then recorded e solutions else unrecorded.

Definition approximations : list (string * string) :=
  [ ("-2/3", "-0.6667"); ("-2", "-2.000"); ("2", "2.000"); ("0", "0") ].

Definition sp_N (v : string) (n : nat) : exn + string :=
  if Nat.eqb n 4 then recorded v approximations else unrecorded.

Definition sympy : SymPy :=
  Build_SymPy string parse_expr sp_sub (fun name => name)
              sp_degree sp_solve sp_N (fun v => v).

(** The form with a given selection and input text. *)
Definition form (linear_active : bool) (text : string) : EquationSolver :=
  mkEquationSolver linear_active (negb linear_active) text placeholder.

(** The label text after [solve], or the escaped exception. *)
Definition solved (linear_active : bool) (text : string) : exn + string :=
  match run (@solve sympy) (form linear_active text) with
  | inr (_, w) => inr (result_label_text w)
  | inl e => inl e
  end.

End Session.

(** ** The event bindings of [__init__]

    [__init__] binds three methods to widget events: the change of [active]
    of either check box to [on_checkbox_active] (lines 63 and 71), [on_press]
    of the solve button to [solve] (line 90) and [on_press] of the clear
    button to [clear_fields] (line 95). *)

Inductive Method : Type :=
| solve_method
| clear_fields_method
| on_checkbox_active_method.

(** A widget event with the positional arguments Kivy hands to a bound
    callback: [on_press] passes the button, a change of [active] passes the
    box and the new value. *)
Inductive Event : Type :=
| on_press (instance : Widget)
| active_changed (checkbox : Widget) (value : bool).

Definition bound_method (ev : Event) : option Method :=
  match ev with
  | active_changed linear_check _
  | active_changed quadratic_check _ => Some on_checkbox_active_method
  | on_press solve_button => Some solve_method
  | on_press clear_button => Some clear_fields_method
  | _ => None
  end.

Definition TypeError (msg : string) : exn := mkExn "TypeError" msg.

(** The outcomes [solve] can leave in the label, for an equation type. *)
Inductive label_kind : Type :=
| kind_error
| kind_no_solutions
| kind_single_root
| kind_two_roots
| kind_multiple_root.

Section Bindings.

Context {sympy : SymPy}.

(** The call of a method on the arguments of an event, checked by Python against
    the parameters of the [def]: [solve(self)], [clear_fields(self,
    instance)], [on_checkbox_active(self, checkbox, value)].  The messages
    are those of Python 3.10 and later. *)
Definition call_bound (m : Method) (ev : Event) : py unit :=
  match m, ev with
  | solve_method, on_press _ =>
      raise (TypeError
        "EquationSolver.solve() takes 1 positional argument but 2 were given")
  | solve_method, active_changed _ _ =>
      raise (TypeError
        "EquationSolver.solve() takes 1 positional argument but 3 were given")
  | clear_fields_method, on_press instance => clear_fields instance
  | clear_fields_method, active_changed _ _ =>
      raise (TypeError
        "EquationSolver.clear_fields() takes 2 positional arguments but 3 were given")
  | on_checkbox_active_method, active_changed checkbox value =>
      on_checkbox_active checkbox value
  | on_checkbox_active_method, on_press _ =>
      raise (TypeError
        "EquationSolver.on_checkbox_active() missing 1 required positional argument: 'value'")
  end.

(** Kivy dispatching an event to the method bound to it, if any. *)
Definition dispatch (ev : Event) : py unit :=
  match bound_method ev with
  | Some m => call_bound m ev
  | None => ret tt
  end.

(** What the user can do with the form: change a check box, edit the input
    text, press a button.  An event whose callback raises is not a step. *)
Inductive ui_step : EquationSolver -> EquationSolver -> Prop :=
| ui_change (c : Widget) (v : bool) (w w' : EquationSolver) :
    is_checkbox c = true ->
    run (assign (set_active c v) ;; dispatch (active_changed c v)) w
    = inr (tt, w') ->
    ui_step w w'
| ui_edit (t : string) (w : EquationSolver) :
    ui_step w (set_equation_input_text t w)
| ui_press (button : Widget) (w w' : EquationSolver) :
    run (dispatch (on_press button)) w = inr (tt, w') ->
    ui_step w w'.

Inductive ui_reachable : EquationSolver -> Prop :=
| ui_reachable_init : ui_reachable init
| ui_reachable_step (w w' : EquationSolver) :
    ui_reachable w -> ui_step w w' -> ui_reachable w'.

(** [text] is a label of the given kind for the selected type. *)
Definition label_of_kind (ty : EquationType) (k : label_kind) (text : string) : Prop :=
  match k with
  | kind_error => exists msg, text = "Ошибка: " ++ msg
  | kind_no_solutions => text = "Уравнение не имеет решений"
  | kind_single_root =>
      ty = linear
      /\ exists v, text = "Решение уравнения:" ++ PyStr.nl ++ "x = " ++ formatted v
  | kind_two_roots =>
      ty = quadratic
      /\ exists v1 v2,
           text = "Корни уравнения:" ++ PyStr.nl ++ "x1 = " ++ formatted v1
                  ++ PyStr.nl ++ "x2 = " ++ formatted v2
  | kind_multiple_root =>
      ty = quadratic
      /\ exists v, text = "Корень уравнения (кратный):" ++ PyStr.nl
                          ++ "x = " ++ formatted v
  end.

End Bindings.

(** ** Shape of the whitespace patterns *)

(** No pattern of [ps] is a prefix of another one. *)
Definition prefix_free (ps : list string) : bool :=
  forallb
    (fun p =>
       forallb
         (fun q =>
            match PyStr.drop_prefix p q with
            | Some _ => String.eqb p q
            | None => true
            end)
         ps)
    ps.

(** The proper suffixes of a string. *)
Fixpoint tails (s : string) : list string :=
  match s with
  | EmptyString => []
  | String _ s' => s' :: tails s'
  end.

Definition same_head (a b : string) : bool :=
  match a, b with
  | String x _, String y _ => Ascii.eqb x y
  | _, _ => false
  end.

(** No pattern of [ps] starts like the inside of a pattern of [ps]: in
    UTF-8, a continuation byte never starts a character. *)
Definition overlap_free (ps : list string) : bool :=
  forallb
    (fun q =>
       forallb (fun u => forallb (fun p => negb (same_head u p)) ps) (tails q))
    ps.

(** ** What the answers of SymPy mean

    The arithmetic of the program is SymPy's.  Its contract on the
    expressions the program can meet, polynomials of degree at most two in
    [x] with rational coefficients, is stated here over two readings of an
    object: as such a polynomial, and as a real number. *)

(** The discriminant of [a*x**2 + b*x + c]. *)
Definition discriminant (a b c : Q) : Q := (b * b - 4 * a * c)%Q.

(** The degree in [x] of [a*x**2 + b*x + c], as [sp.degree] counts it. *)
Definition poly_degree (a b c : Q) : Degree :=
  if negb (Qeq_bool a 0) then Integer 2
  else if negb (Qeq_bool b 0) then Integer 1
  else if negb (Qeq_bool c 0) then Integer 0
  else NegativeInfinity.

(** [v1] and [v2] are the two values of the quadratic formula for
    [a*x**2 + b*x + c], in either order. *)
Definition quadratic_formula (a b c : Q) (v1 v2 : R) : Prop :=
  let s := sqrt (Q2R (discriminant a b c)) in
  let lo := ((- Q2R b - s) / (2 * Q2R a))%R in
  let hi := ((- Q2R b + s) / (2 * Q2R a))%R in
  (v1 = lo /\ v2 = hi) \/ (v1 = hi /\ v2 = lo).

(** [approx] agrees with [exact] to four significant digits: it is off by at
    most one part in a thousand of [exact]. *)
Definition within_4_digits (approx exact : R) : Prop :=
  (Rabs (approx - exact) * 1000 <= Rabs exact)%R.

Section Laws.

Context {sympy : SymPy}.

(** [is_poly e a b c]: the object [e] is the polynomial
    [a*x**2 + b*x + c] in the symbol [x]. *)
Variable is_poly : Obj -> Q -> Q -> Q -> Prop.

(** [is_real v r]: the object [v] is a real number of value [r]. *)
Variable is_real : Obj -> R -> Prop.

Record lawful : Prop := {
  (** [lhs - rhs] subtracts polynomials coefficient by coefficient *)
  sub_law : forall lhs rhs a1 b1 c1 a2 b2 c2,
    is_poly lhs a1 b1 c1 -> is_poly rhs a2 b2 c2 ->
    exists e, sp_sub lhs rhs = inr e
              /\ is_poly e (a1 - a2)%Q (b1 - b2)%Q (c1 - c2)%Q;
  (** [sp.degree] of a polynomial is its degree *)
  degree_law : forall e a b c,
    is_poly e a b c ->
    sp_degree e (sp_symbols "x") = inr (poly_degree a b c);
  (** [sp.solve] of [b*x + c] with [b] not zero: the single root [-c/b] *)
  solve_linear_law : forall e a b c,
    is_poly e a b c -> (a == 0)%Q -> ~ (b == 0)%Q ->
    exists root, sp_solve e (sp_symbols "x") = inr [root]
                 /\ is_real root (Q2R (- c / b));
  (** [sp.solve] at discriminant zero: the double root, listed once *)
  solve_double_law : forall e a b c,
    is_poly e a b c -> ~ (a == 0)%Q -> (discriminant a b c == 0)%Q ->
    exists root, sp_solve e (sp_symbols "x") = inr [root]
                 /\ is_real root (Q2R (- b / (2 * a)));
  (** [sp.solve] at positive discriminant: the two roots of the formula *)
  solve_two_law : forall e a b c,
    is_poly e a b c -> ~ (a == 0)%Q -> (0 < discriminant a b c)%Q ->
    exists r1 r2 v1 v2,
      sp_solve e (sp_symbols "x") = inr [r1; r2]
      /\ is_real r1 v1 /\ is_real r2 v2
      /\ quadratic_formula a b c v1 v2;
  (** [sp.N(v, n=4)], when it answers, is a number within four significant
      digits of [v] *)
  N_law : forall v r n,
    is_real v r -> sp_N v 4 = inr n ->
    exists r', is_real n r' /\ within_4_digits r' r
}.

End Laws.

(** ** A small computing instance

    Polynomials in [x] with rational coefficients, solved exactly up to
    degree two and rounded to four digits: an instance of the interface that
    computes its answers, for running the statements on concrete input.  It
    parses sums, products (implicit ones too, when the transformation is
    given), powers with a literal exponent and parentheses.  It stands for
    SymPy on such input only: whatever else SymPy handles (other symbols,
    functions, complex roots, irrational numbers in [sp.N]) it answers with
    an exception. *)
Module Mini.

Inductive obj : Type :=
| Poly (coefficients : list Q)
| Num (q : Q)
| Surd (u v d : Q)
| Float4 (negative : bool) (mantissa exponent : Z).

(** *** Polynomials, lowest coefficient first *)

Fixpoint padd (p q : list Q) : list Q :=
  match p, q with
  | [], _ => q
  | _, [] => p
  | a :: p', b :: q' => (a + b)%Q :: padd p' q'
  end.

Definition pneg (p : list Q) : list Q := map Qopp p.

Definition psub (p q : list Q) : list Q := padd p (pneg q).

Fixpoint pmul (p q : list Q) : list Q :=
  match p with
  | [] => []
  | a :: p' => padd (map (Qmult a) q) (0%Q :: pmul p' q)
  end.

Fixpoint ppow (p : list Q) (n : nat) : list Q :=
  match n with
  | O => [1%Q]
  | S n' => pmul p (ppow p n')
  end.

Definition coef (p : list Q) (i : nat) : Q := nth i p 0%Q.

Definition all_zero (p : list Q) : bool :=
  forallb (fun k => Qeq_bool k 0) p.

Fixpoint pdegree (p : list Q) : Degree :=
  match p with
  | [] => NegativeInfinity
  | c :: p' =>
      match pdegree p' with
      | Integer n => Integer (n + 1)
      | NegativeInfinity =>
          if Qeq_bool c 0 then NegativeInfinity else Integer 0
      end
  end.

(** *** Reading the text *)

Inductive token : Type :=
| TNum (q : Q)
| TX
| TPlus
| TMinus
| TStar
| TPow
| TLParen
| TRParen.

Definition digit_of (c : ascii) : option Z :=
  let n := Z.of_nat (nat_of_ascii c) in
  if ((48 <=? n) && (n <=? 57))%Z then Some (n - 48)%Z else None.

(** The number read so far, ten to the number of digits read, the rest. *)
Fixpoint take_digits (s : string) (acc scale : Z) : Z * Z * string :=
  match s with
  | String c s' =>
      match digit_of c with
      | Some d => take_digits s' (10 * acc + d)%Z (10 * scale)%Z
      | None => (acc, scale, s)
      end
  | EmptyString => (acc, scale, s)
  end.

Definition cons_token (t : token) (r : option (list token)) : option (list token) :=
  match r with
  | Some ts => Some (t :: ts)
  | None => None
  end.

Fixpoint lex (fuel : nat) (xor_is_pow : bool) (s : string) : option (list token) :=
  match fuel with
  | O => None
  | S fuel' =>
      match s with
      | EmptyString => Some []
      | String c s' =>
          match digit_of c with
          | Some _ =>
              let '(n, _, r1) := take_digits s 0 1 in
              match r1 with
              | String "." r2 =>
                  let '(f, scale, r3) := take_digits r2 0 1 in
                  cons_token
                    (TNum (inject_Z n + Qmake f (Z.to_pos scale))%Q)
                    (lex fuel' xor_is_pow r3)
              | _ => cons_token (TNum (inject_Z n)) (lex fuel' xor_is_pow r1)
              end
          | None =>
              if Ascii.eqb c " " || Ascii.eqb c "009" then
                lex fuel' xor_is_pow s'
              else if Ascii.eqb c "x" then cons_token TX (lex fuel' xor_is_pow s')
              else if Ascii.eqb c "+" then cons_token TPlus (lex fuel' xor_is_pow s')
              else if Ascii.eqb c "-" then cons_token TMinus (lex fuel' xor_is_pow s')
              else if Ascii.eqb c "(" then cons_token TLParen (lex fuel' xor_is_pow s')
              else if Ascii.eqb c ")" then cons_token TRParen (lex fuel' xor_is_pow s')
              else if Ascii.eqb c "^" then
                if xor_is_pow then cons_token TPow (lex fuel' xor_is_pow s')
                else None
              else if Ascii.eqb c "*" then
                match s' with
                | String "*" s'' => cons_token TPow (lex fuel' xor_is_pow s'')
                | _ => cons_token TStar (lex fuel' xor_is_pow s')
                end
              else None
          end
      end
  end.

(** The exponent of a power: a literal natural number. *)
Definition exponent_of (q : Q) : option nat :=
  if ((Zpos (Qden q) =? 1) && (0 <=? Qnum q) && (Qnum q <=? 64))%Z
  then Some (Z.to_nat (Qnum q)) else None.

Fixpoint p_expr (n : nat) (imp : bool) (ts : list token) {struct n}
  : option (list Q * list token) :=
  match n with
  | O => None
  | S n' =>
      match p_term n' imp ts with
      | Some (p, r) => p_expr_rest n' imp p r
      | None => None
      end
  end
with p_expr_rest (n : nat) (imp : bool) (acc : list Q) (ts : list token) {struct n}
  : option (list Q * list token) :=
  match n with
  | O => None
  | S n' =>
      match ts with
      | TPlus :: r =>
          match p_term n' imp r with
          | Some (p, r') => p_expr_rest n' imp (padd acc p) r'
          | None => None
          end
      | TMinus :: r =>
          match p_term n' imp r with
          | Some (p, r') => p_expr_rest n' imp (psub acc p) r'
          | None => None
          end
      | _ => Some (acc, ts)
      end
  end
with p_term (n : nat) (imp : bool) (ts : list token) {struct n}
  : option (list Q * list token) :=
  match n with
  | O => None
  | S n' =>
      match p_unary n' imp ts with
      | Some (p, r) => p_term_rest n' imp p r
      | None => None
      end
  end
with p_term_rest (n : nat) (imp : bool) (acc : list Q) (ts : list token) {struct n}
  : option (list Q * list token) :=
  match n with
  | O => None
  | S n' =>
      match ts with
      | TStar :: r =>
          match p_unary n' imp r with
          | Some (p, r') => p_term_rest n' imp (pmul acc p) r'
          | None => None
          end
      | TNum _ :: _ | TX :: _ | TLParen :: _ =>
          if imp then
            match p_power n' imp ts with
            | Some (p, r') => p_term_rest n' imp (pmul acc p) r'
            | None => None
            end
          else Some (acc, ts)
      | _ => Some (acc, ts)
      end
  end
with p_unary (n : nat) (imp : bool) (ts : list token) {struct n}
  : option (list Q * list token) :=
  match n with
  | O => None
  | S n' =>
      match ts with
      | TMinus :: r =>
          match p_unary n' imp r with
          | Some (p, r') => Some (pneg p, r')
          | None => None
          end
      | TPlus :: r => p_unary n' imp r
      | _ => p_power n' imp ts
      end
  end
with p_power (n : nat) (imp : bool) (ts : list token) {struct n}
  : option (list Q * list token) :=
  match n with
  | O => None
  | S n' =>
      match p_atom n' imp ts with
      | Some (p, TPow :: TNum k :: r) =>
          match exponent_of k with
          | Some e => Some (ppow p e, r)
          | None => None
          end
      | other => other
      end
  end
with p_atom (n : nat) (imp : bool) (ts : list token) {struct n}
  : option (list Q * list token) :=
  match n with
  | O => None
  | S n' =>
      match ts with
      | TNum q :: r => Some ([q], r)
      | TX :: r => Some ([0%Q; 1%Q], r)
      | TLParen :: r =>
          match p_expr n' imp r with
          | Some (p, TRParen :: r') => Some (p, r')
          | _ => None
          end
      | _ => None
      end
  end.

Definition syntax_error : exn :=
  mkExn "SyntaxError" "invalid syntax (<string>, line 1)".

Definition parse_expr (s : string) (ts : list transformation) : exn + obj :=
  if PyStr.contains "^" s && negb (has_transformation convert_xor ts) then
    inl (mkExn "TypeError"
           "unsupported operand type(s) for ^: 'Symbol' and 'Integer'")
  else
    match lex (S (String.length s)) (has_transformation convert_xor ts) s with
    | None => inl syntax_error
    | Some tokens =>
        match p_expr (8 * List.length tokens + 8)
                     (has_transformation implicit_multiplication_application ts)
                     tokens with
        | Some (p, []) => inr (Poly p)
        | _ => inl syntax_error
        end
    end.

(** *** Arithmetic *)

Definition unsupported {A} (what : string) : exn + A :=
  inl (mkExn "NotImplementedError" what).

Definition sp_sub (a b : obj) : exn + obj :=
  match a, b with
  | Poly p, Poly q => inr (Poly (psub p q))
  | _, _ => inl (mkExn "TypeError" "unsupported operand type(s) for -")
  end.

Definition sp_degree (e gen : obj) : exn + Degree :=
  match e with
  | Poly p => inr (pdegree p)
  | _ => unsupported "degree of a number"
  end.

(** The rational square root of a positive rational, when there is one. *)
Definition exact_sqrt (q : Q) : option Q :=
  let t := (Qnum q * Zpos (Qden q))%Z in
  let s := Z.sqrt t in
  if (s * s =? t)%Z then Some (Qmake s (Qden q)) else None.

Definition sp_solve (e sym : obj) : exn + list obj :=
  match e with
  | Poly p =>
      if negb (all_zero (skipn 3 p)) then unsupported "degree above two"
      else
        let a := coef p 2 in
        let b := coef p 1 in
        let c := coef p 0 in
        if Qeq_bool a 0 then
          if Qeq_bool b 0 then inr []
          else inr [Num (Qred (- c / b))]
        else
          let D := discriminant a b c in
          match (D ?= 0)%Q with
          | Eq => inr [Num (Qred (- b / (2 * a)))]
          | Lt => unsupported "complex roots"
          | Gt =>
              match exact_sqrt D with
              | Some s =>
                  let r1 := ((- b - s) / (2 * a))%Q in
                  let r2 := ((- b + s) / (2 * a))%Q in
                  if Qle_bool r1 r2
                  then inr [Num (Qred r1); Num (Qred r2)]
                  else inr [Num (Qred r2); Num (Qred r1)]
              | None =>
                  inr [Surd (- b / (2 * a)) (- (1 / (2 * a))) D;
                       Surd (- b / (2 * a)) (1 / (2 * a)) D]
              end
          end
  | _ => unsupported "solving a number"
  end.

(** *** Rounding to four digits *)

(** [1000 * 10**e <= n/d < 10000 * 10**e], for positive [n] and [d]. *)
Definition bracket (n d e : Z) : bool :=
  if (0 <=? e)%Z then
    ((1000 * (10 ^ e * d) <=? n) && (n <? 10000 * (10 ^ e * d)))%Z
  else
    ((1000 * d <=? n * 10 ^ (- e)) && (n * 10 ^ (- e) <? 10000 * d))%Z.

(** [n/d / 10**e] rounded to an integer, halves upwards. *)
Definition mantissa (n d e : Z) : Z :=
  if (0 <=? e)%Z then ((2 * n + 10 ^ e * d) / (2 * (10 ^ e * d)))%Z
  else ((2 * (n * 10 ^ (- e)) + d) / (2 * d))%Z.

Definition exponent_guess (n d : Z) : Z :=
  ((Z.log2 n - Z.log2 d) * 3 / 10 - 5)%Z.

Definition round4 (q : Q) : option (bool * Z * Z) :=
  let n := Z.abs (Qnum q) in
  let d := Zpos (Qden q) in
  let g := exponent_guess n d in
  match find (bracket n d) (map (Z.add g) [0; 1; 2; 3; 4]%Z) with
  | Some e => Some ((Qnum q <? 0)%Z, mantissa n d e, e)
  | None => None
  end.

Definition sp_N (v : obj) (digits : nat) : exn + obj :=
  if negb (Nat.eqb digits 4) then unsupported "other precisions"
  else
    match v with
    | Num q =>
        if Qeq_bool q 0 then inr (Num 0)
        else
          match round4 q with
          | Some (neg, m, e) => inr (Float4 neg m e)
          | None => unsupported "magnitude"
          end
    | Float4 _ _ _ => inr v
    | Surd _ _ _ => unsupported "irrational numbers"
    | Poly _ => unsupported "expressions"
    end.

(** The value of [Float4 negative m e]. *)
Definition float_value (negative : bool) (m e : Z) : Q :=
  let sm := if negative then (- m)%Z else m in
  if (0 <=? e)%Z then inject_Z (sm * 10 ^ e)
  else Qmake sm (Z.to_pos (10 ^ (- e))).

(** *** Printing *)

Definition digits_of (z : Z) : string := NilZero.string_of_int (Z.to_int z).

Fixpoint zeros (n : nat) : string :=
  match n with
  | O => ""
  | S n' => "0" ++ zeros n'
  end.

(** Four digits at decimal exponent [e]: fixed notation while the leading
    digit sits between [10**-4] and [10**3], scientific outside. *)
Definition print_float (negative : bool) (m e : Z) : string :=
  let '(m, e) := if (m =? 10000)%Z then (1000, e + 1)%Z else (m, e) in
  let digits := digits_of m in
  let lead := (e + 3)%Z in
  let body :=
    if ((-5 <? lead) && (lead <? 0))%Z then
      "0." ++ zeros (Z.to_nat (- lead - 1)) ++ digits
    else if ((0 <=? lead) && (lead <? 4))%Z then
      substring 0 (Z.to_nat (lead + 1)) digits ++ "."
      ++ substring (Z.to_nat (lead + 1)) 4 digits
    else
      substring 0 1 digits ++ "." ++ substring 1 3 digits ++ "e"
      ++ (if (0 <=? lead)%Z then "+" else "") ++ digits_of lead in
  (if negative then "-" else "") ++ body.

Definition print_Q (q : Q) : string :=
  let r := Qred q in
  if (Zpos (Qden r) =? 1)%Z then digits_of (Qnum r)
  else digits_of (Qnum r) ++ "/" ++ digits_of (Zpos (Qden r)).

Fixpoint print_terms (p : list Q) (i : nat) : string :=
  match p with
  | [] => ""
  | c :: p' =>
      "(" ++ print_Q c ++ ")*x**" ++ digits_of (Z.of_nat i)
      ++ match p' with [] => "" | _ => " + " ++ print_terms p' (S i) end
  end.

Definition py_str (v : obj) : string :=
  match v with
  | Poly p => print_terms p 0
  | Num q => print_Q q
  | Surd u v d => print_Q u ++ " + (" ++ print_Q v ++ ")*sqrt(" ++ print_Q d ++ ")"
  | Float4 negative m e => print_float negative m e
  end.

Definition sympy : SymPy :=
  Build_SymPy obj parse_expr sp_sub (fun _ => Poly [0%Q; 1%Q])
              sp_degree sp_solve sp_N py_str.

(** *** The two readings of an object *)

Definition is_poly (e : obj) (a b c : Q) : Prop :=
  match e with
  | Poly p =>
      (coef p 2 == a)%Q /\ (coef p 1 == b)%Q /\ (coef p 0 == c)%Q
      /\ all_zero (skipn 3 p) = true
  | _ => False
  end.

Definition is_real (v : obj) (r : R) : Prop :=
  match v with
  | Num q => r = Q2R q
  | Surd u v d => r = (Q2R u + Q2R v * sqrt (Q2R d))%R
  | Float4 negative m e => r = Q2R (float_value negative m e)
  | Poly _ => False
  end.

(** The form with a given selection and input text, and its label after
    [solve]. *)
Definition form (linear_active : bool) (text : string) : EquationSolver :=
  mkEquationSolver linear_active (negb linear_active) text placeholder.

Definition solved (linear_active : bool) (text : string) : exn + string :=
  match run (@solve sympy) (form linear_active text) with
  | inr (_, w) => inr (result_label_text w)
  | inl e => inl e
  end.

End Mini.

(** * Properties *)

(** ** Running monadic code *)

Section RunLaws.

Lemma run_ret {A} (a : A) (w : EquationSolver) :
  run (ret a) w = inr (a, w).
Proof. reflexivity. Qed.

Lemma run_bind {A B} (c : py A) (f : A -> py B) (w : EquationSolver) :
  run (bind c f) w
  = match run c w with
    | inl e => inl e
    | inr (a, w') => run (f a) w'
    end.
Proof.
  unfold run; cbn.
  destruct (runStateT c w) as [e | [a w']]; reflexivity.
Qed.

Lemma run_raise {A} (e : exn) (w : EquationSolver) :
  run (raise e : py A) w = inl e.
Proof. reflexivity. Qed.

Lemma run_catch {A} (c : py A) (h : exn -> py A) (w : EquationSolver) :
  run (catch c h) w
  = match run c w with
    | inl e => run (h e) w
    | inr r => inr r
    end.
Proof.
  unfold run; cbn.
  destruct (runStateT c w); reflexivity.
Qed.

Lemma run_except_Exception {A} (c : py A) (h : exn -> py A) (w : EquationSolver) :
  run (except_Exception c h) w
  = match run c w with
    | inl e => if is_Exception e then run (h e) w else inl e
    | inr r => inr r
    end.
Proof.
  unfold except_Exception. rewrite run_catch.
  destruct (run c w) as [e |]; [| reflexivity].
  destruct (is_Exception e); reflexivity.
Qed.

Lemma run_call {A} (c : exn + A) (w : EquationSolver) :
  run (call c) w
  = match c with
    | inl e => inl e
    | inr a => inr (a, w)
    end.
Proof. destruct c; reflexivity. Qed.

Lemma run_assign (f : EquationSolver -> EquationSolver) (w : EquationSolver) :
  run (assign f) w = inr (tt, f w).
Proof. reflexivity. Qed.

Lemma run_gets {A} (f : EquationSolver -> A) (w : EquationSolver) :
  run (gets f) w = inr (f w, w).
Proof. reflexivity. Qed.

End RunLaws.

Create Rewrite HintDb run.
#[local] Hint Rewrite @run_ret @run_bind @run_raise @run_catch @run_call
  @run_assign @run_gets : run.

(** ** Strings *)

Module PyStrFacts.
Import PyStr.

Lemma append_nil_r (s : string) : s ++ "" = s.
Proof. induction s; simpl; congruence. Qed.

Lemma append_assoc (a b c : string) : (a ++ b) ++ c = a ++ b ++ c.
Proof. induction a; simpl; congruence. Qed.

Lemma length_append (a b : string) :
  String.length (a ++ b) = String.length a + String.length b.
Proof. induction a; simpl; congruence. Qed.

Lemma string_of_list_ascii_app (l1 l2 : list ascii) :
  string_of_list_ascii (l1 ++ l2)
  = string_of_list_ascii l1 ++ string_of_list_ascii l2.
Proof. induction l1; simpl; congruence. Qed.

Lemma list_ascii_of_string_app (a b : string) :
  list_ascii_of_string (a ++ b)
  = (list_ascii_of_string a ++ list_ascii_of_string b)%list.
Proof. induction a; simpl; congruence. Qed.

Lemma rev_app (a b : string) : rev (a ++ b) = rev b ++ rev a.
Proof.
  unfold rev.
  now rewrite list_ascii_of_string_app, rev_app_distr, string_of_list_ascii_app.
Qed.

Lemma rev_involutive (s : string) : rev (rev s) = s.
Proof.
  unfold rev.
  now rewrite list_ascii_of_string_of_list_ascii, List.rev_involutive,
    string_of_list_ascii_of_string.
Qed.

Lemma length_rev (s : string) : String.length (rev s) = String.length s.
Proof.
  induction s as [| a s IH]; [reflexivity |].
  change (String a s) with (String a "" ++ s).
  rewrite rev_app, !length_append, IH. simpl. lia.
Qed.

Lemma drop_prefix_some (p s rest : string) :
  drop_prefix p s = Some rest -> s = p ++ rest.
Proof.
  revert s; induction p as [| a p IH]; intros s H; simpl in H.
  - now injection H as ->.
  - destruct s as [| b s]; [discriminate |].
    destruct (Ascii.eqb_spec a b) as [-> | _]; [| discriminate].
    simpl. f_equal. now apply IH.
Qed.

Lemma drop_prefix_app (p a b rest : string) :
  drop_prefix p a = Some rest -> drop_prefix p (a ++ b) = Some (rest ++ b).
Proof.
  revert a; induction p as [| c p IH]; intros a H; simpl in H.
  - now injection H as ->.
  - destruct a as [| d a]; [discriminate |]. simpl.
    destruct (Ascii.eqb c d); [| discriminate]. now apply IH.
Qed.

Lemma drop_any_some (ps : list string) (s rest : string) :
  drop_any ps s = Some rest -> exists p, In p ps /\ s = p ++ rest.
Proof.
  induction ps as [| p ps IH]; simpl; [discriminate |].
  destruct (drop_prefix p s) as [rest' |] eqn:E.
  - intros H; injection H as ->. exists p. split; [now left |].
    now apply drop_prefix_some.
  - intros H. destruct (IH H) as (q & Hq & ->). exists q. split; [now right | reflexivity].
Qed.

Lemma drop_any_app_none (ps : list string) (a b : string) :
  drop_any ps (a ++ b) = None -> drop_any ps a = None.
Proof.
  induction ps as [| p ps IH]; simpl; [reflexivity |].
  destruct (drop_prefix p a) as [rest |] eqn:E.
  - rewrite (drop_prefix_app _ _ b _ E). discriminate.
  - destruct (drop_prefix p (a ++ b)); [discriminate | exact IH].
Qed.

Lemma lstrip_fuel_decompose (ps : list string) (fuel : nat) (s : string) :
  exists pre, s = pre ++ lstrip_fuel ps fuel s /\ made_of ps pre.
Proof.
  revert s; induction fuel as [| fuel IH]; intros s; simpl.
  - exists "". split; [reflexivity | constructor].
  - destruct (drop_any ps s) as [rest |] eqn:E.
    + destruct (drop_any_some _ _ _ E) as (p & Hp & ->).
      destruct (IH rest) as (pre & Hrest & Hpre).
      exists (p ++ pre). split.
      * rewrite append_assoc. now rewrite <- Hrest.
      * now constructor.
    + exists "". split; [reflexivity | constructor].
Qed.

(** With fuel for every character, stripping stops only where no pattern
    matches. *)
Lemma lstrip_fuel_stable (ps : list string) (fuel : nat) (s : string) :
  Forall (fun p => p <> "") ps ->
  String.length s <= fuel ->
  drop_any ps (lstrip_fuel ps fuel s) = None.
Proof.
  intros Hps. revert s; induction fuel as [| fuel IH]; intros s Hlen; simpl.
  - destruct s; [| simpl in Hlen; lia].
    clear Hlen. induction Hps as [| p ps Hp _ IHps]; simpl; [reflexivity |].
    destruct p; [congruence | exact IHps].
  - destruct (drop_any ps s) as [rest |] eqn:E; [| exact E].
    apply IH.
    destruct (drop_any_some _ _ _ E) as (p & Hp & ->).
    rewrite length_append in Hlen.
    assert (p <> "") by (rewrite Forall_forall in Hps; now apply Hps).
    destruct p; [congruence | simpl in Hlen; lia].
Qed.

Lemma made_of_snoc (ps : list string) (s p : string) :
  made_of ps s -> In p ps -> made_of ps (s ++ p).
Proof.
  intros Hs Hp. induction Hs as [| q s Hq Hs IH]; simpl.
  - rewrite <- (append_nil_r p). now constructor; [| constructor].
  - rewrite append_assoc. now constructor.
Qed.

Lemma made_of_rev (ps : list string) (s : string) :
  made_of (map rev ps) s -> made_of ps (rev s).
Proof.
  induction 1 as [| q s Hq Hs IH]; [constructor |].
  rewrite rev_app. apply made_of_snoc; [exact IH |].
  apply in_map_iff in Hq. destruct Hq as (p & <- & Hp).
  now rewrite rev_involutive.
Qed.

Lemma whitespace_nonempty : Forall (fun p => p <> "") whitespace.
Proof. repeat constructor; discriminate. Qed.

Lemma rev_whitespace_nonempty : Forall (fun p => p <> "") (map rev whitespace).
Proof. repeat constructor; discriminate. Qed.

Lemma lstrip_decompose (s : string) :
  exists pre, s = pre ++ lstrip s /\ blank pre.
Proof. apply lstrip_fuel_decompose. Qed.

Lemma rstrip_decompose (s : string) :
  exists post, s = rstrip s ++ post /\ blank post.
Proof.
  unfold rstrip.
  destruct (lstrip_fuel_decompose (map rev whitespace) (String.length s) (rev s))
    as (pre & Hs & Hpre).
  exists (rev pre). split; [| now apply made_of_rev].
  rewrite <- rev_app, <- Hs. now rewrite rev_involutive.
Qed.

(** [strip] removes a run of whitespace at each end, and nothing else. *)
Lemma strip_decompose (s : string) :
  exists pre post, s = pre ++ strip s ++ post /\ blank pre /\ blank post.
Proof.
  destruct (lstrip_decompose s) as (pre & Hs & Hpre).
  destruct (rstrip_decompose (lstrip s)) as (post & Hl & Hpost).
  exists pre, post. unfold strip.
  rewrite <- Hl. now repeat split.
Qed.

(** What [strip] returns has no whitespace left at either end. *)
Lemma strip_trimmed (s : string) : trimmed (strip s).
Proof.
  unfold trimmed, strip. split.
  - destruct (rstrip_decompose (lstrip s)) as (post & Hl & _).
    apply (drop_any_app_none _ _ post). rewrite <- Hl.
    apply lstrip_fuel_stable; [apply whitespace_nonempty | lia].
  - unfold rstrip. rewrite rev_involutive.
    apply lstrip_fuel_stable; [apply rev_whitespace_nonempty |].
    rewrite length_rev. lia.
Qed.

Lemma is_empty_true (s : string) : is_empty s = true <-> s = "".
Proof. destruct s; simpl; split; congruence. Qed.

Lemma split_first_some (sep : ascii) (s l r : string) :
  split_first sep s = Some (l, r) ->
  s = l ++ String sep r /\ contains sep l = false.
Proof.
  revert l r; induction s as [| a s IH]; intros l r H; simpl in H.
  - discriminate.
  - destruct (Ascii.eqb_spec a sep) as [-> | Hne].
    + injection H as <- <-. split; reflexivity.
    + destruct (split_first sep s) as [[l' r'] |] eqn:E; [| discriminate].
      injection H as <- <-.
      destruct (IH l' r' eq_refl) as [-> Hl].
      split; [reflexivity |].
      simpl. rewrite Hl.
      destruct (Ascii.eqb_spec a sep); [contradiction | reflexivity].
Qed.

Lemma split_first_none (sep : ascii) (s : string) :
  split_first sep s = None <-> contains sep s = false.
Proof.
  induction s as [| a s IH]; simpl.
  - split; reflexivity.
  - destruct (Ascii.eqb a sep); simpl.
    + split; discriminate.
    + destruct (split_first sep s) as [[l r] |].
      * split; [discriminate |].
        intros H. apply IH in H. discriminate.
      * split; [intros _; now apply IH | reflexivity].
Qed.

Lemma contains_split_first (sep : ascii) (s : string) :
  contains sep s = true ->
  exists l r, split_first sep s = Some (l, r).
Proof.
  intros H.
  destruct (split_first sep s) as [[l r] |] eqn:E.
  - now exists l, r.
  - apply split_first_none in E. congruence.
Qed.

Lemma split_first_contains (sep : ascii) (s l r : string) :
  split_first sep s = Some (l, r) ->
  is_empty s = false /\ contains sep s = true.
Proof.
  intros H. split.
  - destruct s; [discriminate | reflexivity].
  - destruct (contains sep s) eqn:E; [reflexivity |].
    apply split_first_none in E. congruence.
Qed.

End PyStrFacts.

(** ** The stages of [solve] *)

Section Stages.

Context {sympy : SymPy}.

Lemma run_format_solution (solution : Obj) (w : EquationSolver) :
  run (format_solution solution) w = inr (formatted solution, w).
Proof.
  unfold format_solution, formatted.
  autorewrite with run.
  destruct (sp_N solution 4); reflexivity.
Qed.

Lemma run_format_result_nil (ty : EquationType) (w : EquationSolver) :
  run (format_result ty []) w = inr ("Уравнение не имеет решений", w).
Proof. reflexivity. Qed.

Lemma run_format_result_linear (s0 : Obj) (rest : list Obj) (w : EquationSolver) :
  run (format_result linear (s0 :: rest)) w
  = inr ("Решение уравнения:" ++ PyStr.nl ++ "x = " ++ formatted s0, w).
Proof.
  unfold format_result, getitem; cbn [nth_error].
  autorewrite with run. rewrite run_format_solution. reflexivity.
Qed.

Lemma run_format_result_two (r1 r2 : Obj) (w : EquationSolver) :
  run (format_result quadratic [r1; r2]) w
  = inr ("Корни уравнения:" ++ PyStr.nl ++ "x1 = " ++ formatted r1
         ++ PyStr.nl ++ "x2 = " ++ formatted r2, w).
Proof.
  unfold format_result, getitem; cbn [nth_error List.length Nat.eqb].
  autorewrite with run. rewrite run_format_solution.
  autorewrite with run. rewrite run_format_solution. reflexivity.
Qed.

Lemma run_format_result_multiple (s0 : Obj) (rest : list Obj) (w : EquationSolver) :
  List.length rest <> 1 ->
  run (format_result quadratic (s0 :: rest)) w
  = inr ("Корень уравнения (кратный):" ++ PyStr.nl ++ "x = " ++ formatted s0, w).
Proof.
  intros Hlen. unfold format_result.
  replace (Nat.eqb (List.length (s0 :: rest)) 2) with false.
  - unfold getitem; cbn [nth_error].
    autorewrite with run. rewrite run_format_solution. reflexivity.
  - symmetry. apply Nat.eqb_neq. simpl. lia.
Qed.

(** Formatting never raises and leaves the form alone. *)
Lemma format_result_total (ty : EquationType) (sols : list Obj) (w : EquationSolver) :
  exists text, run (format_result ty sols) w = inr (text, w).
Proof.
  destruct sols as [| s0 rest].
  - eexists; apply run_format_result_nil.
  - destruct ty.
    + eexists; apply run_format_result_linear.
    + destruct rest as [| s1 [| s2 rest]].
      * eexists; apply run_format_result_multiple; simpl; lia.
      * eexists; apply run_format_result_two.
      * eexists; apply run_format_result_multiple; simpl; lia.
Qed.

Lemma run_solve_expr (ty : EquationType) (expr x : Obj) (w : EquationSolver) :
  run (solve_expr ty expr x) w
  = match sp_solve expr x with
    | inl e => inl e
    | inr sols =>
        match run (format_result ty sols) w with
        | inl e => inl e
        | inr (text, w') => inr (tt, set_result_label_text text w')
        end
    end.
Proof.
  unfold solve_expr. autorewrite with run.
  destruct (sp_solve expr x) as [e | sols]; [reflexivity |].
  autorewrite with run.
  destruct (run (format_result ty sols) w) as [e | [text w']]; reflexivity.
Qed.

Lemma run_check_degree (ty : EquationType) (d : Degree) (w : EquationSolver) :
  run (check_degree ty d) w
  = if EquationType_eqb ty linear && degree_gt d 1 then
      inl (ValueError "Уравнение не линейное (степень > 1)")
    else if EquationType_eqb ty quadratic && degree_ne d 2 then
      inl (ValueError "Уравнение не квадратное (степень должна быть 2)")
    else inr (tt, w).
Proof.
  unfold check_degree. autorewrite with run.
  destruct (EquationType_eqb ty linear && degree_gt d 1); [reflexivity |].
  autorewrite with run.
  destruct (EquationType_eqb ty quadratic && degree_ne d 2); reflexivity.
Qed.

Lemma parse_sides_eq (l r : string) :
  parse_sides l r
  = match parse_expr l transformations with
    | inl e => inl e
    | inr lhs =>
        match parse_expr r transformations with
        | inl e => inl e
        | inr rhs => sp_sub lhs rhs
        end
    end.
Proof. reflexivity. Qed.

Lemma run_solve_sides (ty : EquationType) (l r : string) (w : EquationSolver) :
  run (solve_sides ty l r) w
  = match parse_sides l r with
    | inl e => inl e
    | inr expr =>
        match sp_degree expr (sp_symbols "x") with
        | inl e => inl e
        | inr d =>
            match run (check_degree ty d) w with
            | inl e => inl e
            | inr _ => run (solve_expr ty expr (sp_symbols "x")) w
            end
        end
    end.
Proof.
  unfold solve_sides. autorewrite with run.
  destruct (parse_sides l r) as [e | expr]; [reflexivity |].
  autorewrite with run.
  destruct (sp_degree expr (sp_symbols "x")) as [e | d]; [reflexivity |].
  autorewrite with run.
  destruct (run (check_degree ty d) w) as [e | [[] w']] eqn:E;
    [reflexivity |].
  rewrite run_check_degree in E.
  destruct (EquationType_eqb ty linear && degree_gt d 1); [discriminate |].
  destruct (EquationType_eqb ty quadratic && degree_ne d 2);
    [discriminate |].
  injection E as <-. reflexivity.
Qed.

Lemma run_solve_try (w : EquationSolver) :
  run solve_try w
  = let eq_text := PyStr.strip (equation_input_text w) in
    if PyStr.is_empty eq_text then
      inl (ValueError "Введите уравнение")
    else if PyStr.contains "=" eq_text then
      match PyStr.split_first "=" eq_text with
      | Some (l, r) => run (solve_sides (selected_type w) l r) w
      | None =>
          inl (ValueError "not enough values to unpack (expected 2, got 1)")
      end
    else inl (ValueError "Уравнение должно содержать знак '='").
Proof.
  unfold solve_try. cbv zeta. autorewrite with run.
  destruct (PyStr.is_empty (PyStr.strip (equation_input_text w)));
    [reflexivity |].
  autorewrite with run.
  destruct (PyStr.contains "=" (PyStr.strip (equation_input_text w)));
    [| reflexivity].
  cbn [negb]. autorewrite with run.
  unfold PyStr.split1.
  destruct (PyStr.split_first "=" (PyStr.strip (equation_input_text w)))
    as [[l r] |]; reflexivity.
Qed.

(** The only trace a run of the [try] block leaves is the label text. *)
Lemma solve_sides_effect (ty : EquationType) (l r : string)
      (w : EquationSolver) (u : unit) (w' : EquationSolver) :
  run (solve_sides ty l r) w = inr (u, w') ->
  exists text, w' = set_result_label_text text w.
Proof.
  rewrite run_solve_sides.
  destruct (parse_sides l r) as [e | expr]; [discriminate |].
  destruct (sp_degree expr (sp_symbols "x")) as [e | d]; [discriminate |].
  destruct (run (check_degree ty d) w) as [e | ?]; [discriminate |].
  rewrite run_solve_expr.
  destruct (sp_solve expr (sp_symbols "x")) as [e | sols]; [discriminate |].
  destruct (format_result_total ty sols w) as [text ->].
  intros H; injection H as _ <-. now exists text.
Qed.

Lemma solve_try_effect (w : EquationSolver) (u : unit) (w' : EquationSolver) :
  run solve_try w = inr (u, w') ->
  exists text, w' = set_result_label_text text w.
Proof.
  rewrite run_solve_try. cbv zeta.
  destruct (PyStr.is_empty _); [discriminate |].
  destruct (PyStr.contains _ _); [| discriminate].
  destruct (PyStr.split_first _ _) as [[l r] |]; [| discriminate].
  apply solve_sides_effect.
Qed.

Lemma run_solve (w : EquationSolver) :
  run solve w
  = match run solve_try w with
    | inl e =>
        if is_Exception e
        then inr (tt, set_result_label_text ("Ошибка: " ++ exn_str e) w)
        else inl e
    | inr r => inr r
    end.
Proof. unfold solve. rewrite run_except_Exception. reflexivity. Qed.

(** A run of [solve] that returns has changed the label and nothing else. *)
Lemma solve_effect (w : EquationSolver) (u : unit) (w' : EquationSolver) :
  run solve w = inr (u, w') ->
  exists text, w' = set_result_label_text text w.
Proof.
  rewrite run_solve.
  destruct (run solve_try w) as [e | [[] w'']] eqn:E.
  - destruct (is_Exception e); [| discriminate].
    intros H; injection H as _ <-. now eexists.
  - intros H; injection H as _ <-. exact (solve_try_effect w tt w'' E).
Qed.

(** [solve] either returns with a text in the label, or lets through an
    exception of its [try] block that is not an instance of [Exception]. *)
Lemma solve_outcome (w : EquationSolver) :
  (exists text, run solve w = shown text w)
  \/ (exists e, is_Exception e = false
                /\ run solve_try w = inl e /\ run solve w = inl e).
Proof.
  rewrite run_solve.
  destruct (run solve_try w) as [e | [[] w']] eqn:E.
  - destruct (is_Exception e) eqn:He.
    + left. now eexists.
    + right. now exists e.
  - left. destruct (solve_try_effect w tt w' E) as [text ->]. now exists text.
Qed.

(** Once the stripped text splits into [l] and [r], [solve] is the guarded
    run of [solve_sides] on them. *)
Lemma run_solve_split (w : EquationSolver) (l r : string) :
  PyStr.split_first "=" (PyStr.strip (equation_input_text w)) = Some (l, r) ->
  run solve w
  = run (except_Exception (solve_sides (selected_type w) l r) show_error) w.
Proof.
  intros H. unfold solve. rewrite !run_except_Exception, run_solve_try.
  cbv zeta.
  destruct (PyStrFacts.split_first_contains _ _ _ _ H) as [-> ->].
  rewrite H. reflexivity.
Qed.


End Stages.

(** ** The claims *)

Section Claims.

Context {sympy : SymPy}.

(** What [solve] shows for an answer [[root]] of the solver under the linear
    type. *)
Lemma solve_shows_single_root (w : EquationSolver) (l r : string) (expr root : Obj) :
  linear_check_active w = true ->
  PyStr.split_first "=" (PyStr.strip (equation_input_text w)) = Some (l, r) ->
  parse_sides l r = inr expr ->
  sp_degree expr (sp_symbols "x") = inr (Integer 1) ->
  sp_solve expr (sp_symbols "x") = inr [root] ->
  run solve w
  = shown ("Решение уравнения:" ++ PyStr.nl ++ "x = " ++ formatted root) w.
Proof.
  intros Hlin Hsplit Hparse Hdeg Hsolve.
  rewrite (run_solve_split w l r Hsplit), run_except_Exception, run_solve_sides.
  rewrite Hparse, Hdeg, run_check_degree.
  unfold selected_type; rewrite Hlin; cbn [EquationType_eqb degree_gt andb Z.ltb Z.compare Pos.compare].
  rewrite run_solve_expr, Hsolve, run_format_result_linear. reflexivity.
Qed.

(** What [solve] shows for the answers [[r1; r2]] and [[r0]] of the solver
    under the quadratic type. *)
Lemma solve_shows_quadratic_roots (w : EquationSolver) (l r : string) (expr : Obj) :
  linear_check_active w = false ->
  PyStr.split_first "=" (PyStr.strip (equation_input_text w)) = Some (l, r) ->
  parse_sides l r = inr expr ->
  sp_degree expr (sp_symbols "x") = inr (Integer 2) ->
  (forall r1 r2 : Obj,
      sp_solve expr (sp_symbols "x") = inr [r1; r2] ->
      run solve w
      = shown ("Корни уравнения:" ++ PyStr.nl ++ "x1 = " ++ formatted r1
               ++ PyStr.nl ++ "x2 = " ++ formatted r2) w)
  /\ (forall r0 : Obj,
        sp_solve expr (sp_symbols "x") = inr [r0] ->
        run solve w
        = shown ("Корень уравнения (кратный):" ++ PyStr.nl
                 ++ "x = " ++ formatted r0) w).
Proof.
  intros Hquad Hsplit Hparse Hdeg.
  assert (Hrun : run solve w
                 = run (except_Exception
                          (solve_expr quadratic expr (sp_symbols "x"))
                          show_error) w).
  { rewrite (run_solve_split w l r Hsplit), !run_except_Exception.
    rewrite run_solve_sides, Hparse, Hdeg, run_check_degree.
    unfold selected_type; rewrite Hquad. reflexivity. }
  split.
  - intros r1 r2 Hsolve.
    rewrite Hrun, run_except_Exception, run_solve_expr, Hsolve.
    rewrite run_format_result_two. reflexivity.
  - intros r0 Hsolve.
    rewrite Hrun, run_except_Exception, run_solve_expr, Hsolve.
    rewrite run_format_result_multiple by (simpl; lia). reflexivity.
Qed.

Lemma within_4_digits_refl (r : R) : within_4_digits r r.
Proof.
  unfold within_4_digits. rewrite Rminus_diag, Rabs_R0.
  pose proof (Rabs_pos r). lra.
Qed.

Lemma Q2R_zero : Q2R 0 = 0%R.
Proof. unfold Q2R; simpl; lra. Qed.

Lemma poly_degree_linear (a c : Q) :
  ~ (a == 0)%Q -> poly_degree (0 - 0) (a - 0) c = Integer 1.
Proof.
  intros Ha. unfold poly_degree.
  replace (Qeq_bool (0 - 0) 0) with true by reflexivity.
  destruct (Qeq_bool (a - 0) 0) eqn:E; [| reflexivity].
  exfalso. apply Ha. apply Qeq_bool_iff in E. rewrite <- E. ring.
Qed.

Lemma poly_degree_quadratic (a b c : Q) :
  ~ (a == 0)%Q -> poly_degree (a - 0) b c = Integer 2.
Proof.
  intros Ha. unfold poly_degree.
  destruct (Qeq_bool (a - 0) 0) eqn:E; [| reflexivity].
  exfalso. apply Ha. apply Qeq_bool_iff in E. rewrite <- E. ring.
Qed.

Lemma quadratic_formula_compat (a b c a' b' c' : Q) (v1 v2 : R) :
  (a == a')%Q -> (b == b')%Q -> (c == c')%Q ->
  quadratic_formula a b c v1 v2 -> quadratic_formula a' b' c' v1 v2.
Proof.
  intros Ha Hb Hc. unfold quadratic_formula.
  assert (HD : (discriminant a b c == discriminant a' b' c')%Q).
  { unfold discriminant. now rewrite Ha, Hb, Hc. }
  now rewrite (Qeq_eqR _ _ HD), (Qeq_eqR _ _ Ha), (Qeq_eqR _ _ Hb).
Qed.

(** At positive discriminant the two values of the formula differ. *)
Lemma quadratic_formula_distinct (a b c : Q) (v1 v2 : R) :
  ~ (a == 0)%Q -> (0 < discriminant a b c)%Q ->
  quadratic_formula a b c v1 v2 -> v1 <> v2.
Proof.
  intros Ha HD Hf.
  assert (Hs : (0 < sqrt (Q2R (discriminant a b c)))%R).
  { apply sqrt_lt_R0. rewrite <- Q2R_zero. now apply Qlt_Rlt. }
  assert (HRa : (2 * Q2R a <> 0)%R).
  { intros H. apply Ha. apply eqR_Qeq. rewrite Q2R_zero. lra. }
  assert (Hreg : forall x y z : R, z <> 0%R -> (x / z = y / z)%R -> x = y).
  { intros x y z Hz H. apply (Rmult_eq_reg_r (/ z)); [exact H |].
    now apply Rinv_neq_0_compat. }
  unfold quadratic_formula in Hf. cbv zeta in Hf.
  destruct Hf as [[-> ->] | [-> ->]]; intros H;
    apply (Hreg _ _ _ HRa) in H; lra.
Qed.

(** What [format_solution] returns for a number is the printed form of a
    number within four digits of it. *)
Lemma formatted_close (is_poly : Obj -> Q -> Q -> Q -> Prop)
      (is_real : Obj -> R -> Prop) (laws : lawful is_poly is_real)
      (root : Obj) (v : R) :
  is_real root v ->
  exists (shown_root : Obj) (u : R),
    formatted root = py_str shown_root
    /\ is_real shown_root u /\ within_4_digits u v.
Proof.
  intros Hroot. unfold formatted.
  destruct (sp_N root 4) as [e | n] eqn:EN.
  - exists root, v. split; [reflexivity |].
    split; [exact Hroot | apply within_4_digits_refl].
  - destruct (N_law _ _ laws root v n Hroot EN) as (u & Hn & Hclose).
    now exists n, u.
Qed.

(** C1.  A linear input [a*x + b = c] with [a] not zero, solved under the
    linear type by a SymPy that keeps its contract: the difference of the
    two sides has exactly one solution, of value [(c - b) / a], and the
    label shows the heading of a single solution followed by [x = ] and the
    printed form of a number within four significant digits of
    [(c - b) / a]. *)
Theorem linear_single_root
        (is_poly : Obj -> Q -> Q -> Q -> Prop) (is_real : Obj -> R -> Prop)
        (w : EquationSolver) (l r : string) (lhs rhs : Obj) (a b c : Q) :
  lawful is_poly is_real ->
  linear_check_active w = true ->
  PyStr.split_first "=" (PyStr.strip (equation_input_text w)) = Some (l, r) ->
  parse_expr l transformations = inr lhs ->
  parse_expr r transformations = inr rhs ->
  is_poly lhs 0%Q a b ->
  is_poly rhs 0%Q 0%Q c ->
  ~ (a == 0)%Q ->
  exists (expr root shown_root : Obj) (v : R),
    parse_sides l r = inr expr
    /\ sp_solve expr (sp_symbols "x") = inr [root]
    /\ is_real root (Q2R ((c - b) / a))
    /\ run solve w
       = shown ("Решение уравнения:" ++ PyStr.nl ++ "x = "
                ++ py_str shown_root) w
    /\ is_real shown_root v
    /\ within_4_digits v (Q2R ((c - b) / a)).
Proof.
  intros laws Hlin Hsplit Hl Hr Hlhs Hrhs Ha.
  destruct (sub_law _ _ laws lhs rhs _ _ _ _ _ _ Hlhs Hrhs)
    as (expr & Hsub & Hexpr).
  assert (Hparse : parse_sides l r = inr expr).
  { now rewrite parse_sides_eq, Hl, Hr. }
  assert (Ha' : ~ (a - 0 == 0)%Q).
  { intros H. apply Ha. rewrite <- H. ring. }
  destruct (solve_linear_law _ _ laws expr _ _ _ Hexpr
              ltac:(reflexivity) Ha')
    as (root & Hsolve & Hroot).
  replace (Q2R (- (b - c) / (a - 0))) with (Q2R ((c - b) / a)) in Hroot.
  2:{ apply Qeq_eqR. field. exact Ha. }
  destruct (formatted_close is_poly is_real laws root _ Hroot)
    as (shown_root & v & Hfmt & Hshown & Hclose).
  exists expr, root, shown_root, v.
  split; [exact Hparse |]. split; [exact Hsolve |]. split; [exact Hroot |].
  split; [| now split].
  rewrite <- Hfmt.
  apply (solve_shows_single_root w l r expr root Hlin Hsplit Hparse);
    [| exact Hsolve].
  rewrite (degree_law _ _ laws expr _ _ _ Hexpr).
  now rewrite poly_degree_linear.
Qed.

(** C2.  A quadratic input [a*x**2 + b*x + c = 0] with [a] not zero, solved
    under the quadratic type by a SymPy that keeps its contract.  At
    positive discriminant the solver returns exactly two solutions, whose
    values are the two distinct values of the quadratic formula, and the
    label shows them on the lines [x1 = ] and [x2 = ], each as the printed
    form of a number within four significant digits of its root.  At
    discriminant zero the solver returns exactly one solution, [-b / (2*a)],
    and the label shows it once, under the heading of a multiple root. *)
Theorem quadratic_roots
        (is_poly : Obj -> Q -> Q -> Q -> Prop) (is_real : Obj -> R -> Prop)
        (w : EquationSolver) (l r : string) (lhs rhs : Obj) (a b c : Q) :
  lawful is_poly is_real ->
  linear_check_active w = false ->
  PyStr.split_first "=" (PyStr.strip (equation_input_text w)) = Some (l, r) ->
  parse_expr l transformations = inr lhs ->
  parse_expr r transformations = inr rhs ->
  is_poly lhs a b c ->
  is_poly rhs 0%Q 0%Q 0%Q ->
  ~ (a == 0)%Q ->
  exists expr : Obj,
    parse_sides l r = inr expr
    /\ ((0 < discriminant a b c)%Q ->
        exists (r1 r2 shown1 shown2 : Obj) (v1 v2 u1 u2 : R),
          sp_solve expr (sp_symbols "x") = inr [r1; r2]
          /\ is_real r1 v1 /\ is_real r2 v2
          /\ quadratic_formula a b c v1 v2
          /\ v1 <> v2
          /\ run solve w
             = shown ("Корни уравнения:" ++ PyStr.nl
                      ++ "x1 = " ++ py_str shown1 ++ PyStr.nl
                      ++ "x2 = " ++ py_str shown2) w
          /\ is_real shown1 u1 /\ within_4_digits u1 v1
          /\ is_real shown2 u2 /\ within_4_digits u2 v2)
    /\ ((discriminant a b c == 0)%Q ->
        exists (root shown_root : Obj) (u : R),
          sp_solve expr (sp_symbols "x") = inr [root]
          /\ is_real root (Q2R (- b / (2 * a)))
          /\ run solve w
             = shown ("Корень уравнения (кратный):" ++ PyStr.nl
                      ++ "x = " ++ py_str shown_root) w
          /\ is_real shown_root u
          /\ within_4_digits u (Q2R (- b / (2 * a)))).
Proof.
  intros laws Hquad Hsplit Hl Hr Hlhs Hrhs Ha.
  destruct (sub_law _ _ laws lhs rhs _ _ _ _ _ _ Hlhs Hrhs)
    as (expr & Hsub & Hexpr).
  assert (Hparse : parse_sides l r = inr expr).
  { now rewrite parse_sides_eq, Hl, Hr. }
  assert (Ha' : ~ (a - 0 == 0)%Q).
  { intros H. apply Ha. rewrite <- H. ring. }
  assert (Hdeg : sp_degree expr (sp_symbols "x") = inr (Integer 2)).
  { rewrite (degree_law _ _ laws expr _ _ _ Hexpr).
    now rewrite poly_degree_quadratic. }
  assert (HD : (discriminant (a - 0) (b - 0) (c - 0) == discriminant a b c)%Q).
  { unfold discriminant. ring. }
  destruct (solve_shows_quadratic_roots w l r expr Hquad Hsplit Hparse Hdeg)
    as [Htwo Hone].
  exists expr. split; [exact Hparse |]. split.
  - intros Hpos.
    destruct (solve_two_law _ _ laws expr _ _ _ Hexpr Ha'
                ltac:(now rewrite HD))
      as (r1 & r2 & v1 & v2 & Hsolve & Hr1 & Hr2 & Hformula).
    assert (Hformula' : quadratic_formula a b c v1 v2).
    { apply (quadratic_formula_compat (a - 0) (b - 0) (c - 0));
        [ring | ring | ring | exact Hformula]. }
    destruct (formatted_close is_poly is_real laws r1 _ Hr1)
      as (shown1 & u1 & Hfmt1 & Hshown1 & Hclose1).
    destruct (formatted_close is_poly is_real laws r2 _ Hr2)
      as (shown2 & u2 & Hfmt2 & Hshown2 & Hclose2).
    exists r1, r2, shown1, shown2, v1, v2, u1, u2.
    split; [exact Hsolve |]. split; [exact Hr1 |]. split; [exact Hr2 |].
    split; [exact Hformula' |].
    split; [exact (quadratic_formula_distinct a b c v1 v2 Ha Hpos Hformula') |].
    split; [| now repeat split].
    rewrite <- Hfmt1, <- Hfmt2. exact (Htwo r1 r2 Hsolve).
  - intros Hzero.
    destruct (solve_double_law _ _ laws expr _ _ _ Hexpr Ha'
                ltac:(now rewrite HD))
      as (root & Hsolve & Hroot).
    replace (Q2R (- (b - 0) / (2 * (a - 0)))) with (Q2R (- b / (2 * a)))
      in Hroot.
    2:{ apply Qeq_eqR. field. exact Ha. }
    destruct (formatted_close is_poly is_real laws root _ Hroot)
      as (shown_root & u & Hfmt & Hshown & Hclose).
    exists root, shown_root, u.
    split; [exact Hsolve |]. split; [exact Hroot |].
    split; [| now split].
    rewrite <- Hfmt. exact (Hone root Hsolve).
Qed.

(** C3.  With both sides parsed and the degree [d] of their difference
    computed: under the linear type a degree above 1 ends in the error
    "not linear"; under the quadratic type a degree other than 2 ends in
    the error "not quadratic"; degree 0 under the linear type passes the
    check and goes on to the solve step. *)
Theorem degree_check (w : EquationSolver) (l r : string) (expr : Obj) (d : Degree) :
  PyStr.split_first "=" (PyStr.strip (equation_input_text w)) = Some (l, r) ->
  parse_sides l r = inr expr ->
  sp_degree expr (sp_symbols "x") = inr d ->
  (linear_check_active w = true -> degree_gt d 1 = true ->
   run solve w = shown (error_text "Уравнение не линейное (степень > 1)") w)
  /\ (linear_check_active w = false -> degree_ne d 2 = true ->
      run solve w
      = shown (error_text "Уравнение не квадратное (степень должна быть 2)") w)
  /\ (linear_check_active w = true -> d = Integer 0 ->
      run solve w = run (except_Exception (solve_expr linear expr (sp_symbols "x"))
                             show_error) w).
Proof.
  intros Hsplit Hparse Hdeg.
  rewrite (run_solve_split w l r Hsplit), !run_except_Exception, run_solve_sides.
  rewrite Hparse, Hdeg, run_check_degree. unfold selected_type.
  repeat split.
  - intros -> ->. reflexivity.
  - intros -> ->. reflexivity.
  - intros -> ->. reflexivity.
Qed.

(** C4.  [solve] works on the stripped text, which is the input without
    the whitespace at its two ends: an empty stripped text ends in the
    error asking for an equation; a non-empty one without [=] ends in the
    error asking for the sign; otherwise the stripped text is cut at its
    first [=] and the two pieces are what is parsed. *)
Theorem input_validation (w : EquationSolver) :
  let eq_text := PyStr.strip (equation_input_text w) in
  PyStr.trimmed eq_text
  /\ (exists pre post : string,
        equation_input_text w = pre ++ eq_text ++ post
        /\ PyStr.blank pre /\ PyStr.blank post)
  /\
  ((eq_text = ""
   /\ run solve w = shown (error_text "Введите уравнение") w)
  \/ (eq_text <> ""
      /\ PyStr.contains "=" eq_text = false
      /\ run solve w
         = shown (error_text "Уравнение должно содержать знак '='") w)
  \/ (exists l r : string,
        eq_text = l ++ "=" ++ r
        /\ PyStr.contains "=" l = false
        /\ run solve w
           = run (except_Exception (solve_sides (selected_type w) l r)
                                   show_error) w)).
Proof.
  intros eq_text.
  split; [apply PyStrFacts.strip_trimmed |].
  split; [apply PyStrFacts.strip_decompose |].
  destruct (PyStr.is_empty eq_text) eqn:Hempty.
  - left. split; [now apply PyStrFacts.is_empty_true |].
    rewrite run_solve, run_solve_try. cbv zeta. fold eq_text.
    rewrite Hempty. reflexivity.
  - assert (Hne : eq_text <> "").
    { intros H. apply PyStrFacts.is_empty_true in H. congruence. }
    destruct (PyStr.contains "=" eq_text) eqn:Hcontains.
    + right; right.
      destruct (PyStrFacts.contains_split_first _ _ Hcontains) as (l & r & Hsplit).
      exists l, r.
      destruct (PyStrFacts.split_first_some _ _ _ _ Hsplit) as [Heq Hl].
      repeat split; [exact Heq | exact Hl |].
      now apply run_solve_split.
    + right; left. repeat split; [exact Hne |].
      rewrite run_solve, run_solve_try. cbv zeta. fold eq_text.
      rewrite Hempty, Hcontains. reflexivity.
Qed.

(** C6, as amended.  Whenever the solve step is reached and the solver
    returns the empty list, whatever the degree ([-oo] for an equation that
    holds identically included), the label shows the message for no
    solutions: an empty solution list is never reported as an error. *)
Theorem empty_solution_list_message (w : EquationSolver) (l r : string)
        (expr : Obj) (d : Degree) :
  PyStr.split_first "=" (PyStr.strip (equation_input_text w)) = Some (l, r) ->
  parse_sides l r = inr expr ->
  sp_degree expr (sp_symbols "x") = inr d ->
  EquationType_eqb (selected_type w) linear && degree_gt d 1 = false ->
  EquationType_eqb (selected_type w) quadratic && degree_ne d 2 = false ->
  sp_solve expr (sp_symbols "x") = inr [] ->
  run solve w = shown "Уравнение не имеет решений" w.
Proof.
  intros Hsplit Hparse Hdeg Hlin Hquad Hsolve.
  rewrite (run_solve_split w l r Hsplit), run_except_Exception, run_solve_sides.
  rewrite Hparse, Hdeg, run_check_degree, Hlin, Hquad.
  rewrite run_solve_expr, Hsolve, run_format_result_nil. reflexivity.
Qed.

(** C7.  [format_solution] never raises and does not touch the form: it
    returns the printed [sp.N(solution, n=4)] when that call succeeds, and
    the printed solution itself whenever it raises. *)
Theorem format_solution_never_raises (solution : Obj) (w : EquationSolver) :
  run (format_solution solution) w
  = inr (match sp_N solution 4 with
         | inr numeric_value => py_str numeric_value
         | inl _ => py_str solution
         end, w).
Proof. apply run_format_solution. Qed.


(** X12.  In every state reachable by check-box steps, edits of the input
    and calls of [clear_fields] and [solve], at most one box is active.
    Initially only the linear box is.  Activating a box leaves that box the
    only active one; deactivating the active box leaves no box active. *)
Theorem selection_invariant (w : EquationSolver) :
  reachable w ->
  only_active linear_check init
  /\ at_most_one_active w
  /\ (forall c, is_checkbox c = true ->
       exists w', run (toggle c true) w = inr (tt, w') /\ only_active c w')
  /\ (forall c, is_checkbox c = true -> is_active c w = true ->
       exists w', run (toggle c false) w = inr (tt, w') /\ none_active w').
Proof.
  intros Hreach.
  assert (Hinv : at_most_one_active w).
  { induction Hreach as [| w w' Hreach IH Hstep].
    - reflexivity.
    - unfold at_most_one_active in *.
      destruct Hstep as [w w' Ht | t w | w w' Hclear | w w' Hsolve].
      + destruct Ht as [c w w' Hc Hrun | c w w' Hc Hact Hrun];
          destruct c; try discriminate;
          injection Hrun as <-; cbn;
          rewrite ?andb_false_r; reflexivity.
      + exact IH.
      + injection Hclear as <-. exact IH.
      + destruct (solve_effect w tt w' Hsolve) as [text ->]. exact IH. }
  split; [now split |]. split; [exact Hinv |].
  unfold at_most_one_active in Hinv.
  split.
  - intros c Hc. destruct c; try discriminate; eexists; split;
      try reflexivity; cbn; split; reflexivity.
  - intros c Hc Hact. destruct c; try discriminate; cbn in Hact;
      rewrite Hact, ?andb_true_r in Hinv; cbn in Hinv;
      eexists; (split; [reflexivity |]); split; simpl; congruence.
Qed.

(** C10.  [clear_fields] empties the input, puts the placeholder into the
    label and leaves both check boxes as they were, from every state and
    whatever widget triggered it. *)
Theorem clear_fields_resets (instance : Widget) (w : EquationSolver) :
  run (clear_fields instance) w
  = inr (tt, mkEquationSolver (linear_check_active w)
                              (quadratic_check_active w)
                              "" placeholder).
Proof. reflexivity. Qed.

End Claims.

(** ** Concrete runs on the recorded session *)

Module Runs.
Import Session.

(** C5.  The transformations passed to [parse_expr] contain implicit
    multiplication but not [convert_xor].  On the recorded session the
    input ["2x = 0"] is solved, and ["x**2 - 4 = 0"] gives the two roots,
    while the same equation written with [^] ends in an error. *)
Theorem caret_is_not_exponentiation :
  has_transformation implicit_multiplication_application transformations = true
  /\ has_transformation convert_xor transformations = false
  /\ solved true "2x = 0" = inr ("Решение уравнения:" ++ PyStr.nl ++ "x = 0")
  /\ solved false "x**2 - 4 = 0"
     = inr ("Корни уравнения:" ++ PyStr.nl ++ "x1 = -2.000"
            ++ PyStr.nl ++ "x2 = 2.000")
  /\ solved false "x^2 - 4 = 0"
     = inr (error_text
              "unsupported operand type(s) for ^: 'Symbol' and 'Integer'").
Proof. repeat split. Qed.

(** A quadratic under the linear type, a linear equation under the
    quadratic type, and a degree-0 equation under the linear type, through
    [degree_check]. *)
Lemma degree_check_witness :
  run (@solve sympy) (form true "x**2 - 4 = 0")
  = shown (error_text "Уравнение не линейное (степень > 1)")
          (form true "x**2 - 4 = 0")
  /\ run (@solve sympy) (form false "3*x + 2 = 0")
     = shown (error_text "Уравнение не квадратное (степень должна быть 2)")
             (form false "3*x + 2 = 0")
  /\ run (@solve sympy) (form true "x + 1 = x + 2")
     = run (except_Exception (@solve_expr sympy linear "-1" "x") show_error)
           (form true "x + 1 = x + 2").
Proof.
  split; [| split].
  - apply (proj1 (@degree_check sympy (form true "x**2 - 4 = 0")
                    "x**2 - 4 " " 0" "x**2 - 4" (Integer 2)
                    eq_refl eq_refl eq_refl));
      reflexivity.
  - apply (proj1 (proj2 (@degree_check sympy (form false "3*x + 2 = 0")
                           "3*x + 2 " " 0" "3*x + 2" (Integer 1)
                           eq_refl eq_refl eq_refl)));
      reflexivity.
  - apply (proj2 (proj2 (@degree_check sympy (form true "x + 1 = x + 2")
                           "x + 1 " " x + 2" "-1" (Integer 0)
                           eq_refl eq_refl eq_refl)));
      reflexivity.
Defined.

(** Scenario 6, through [empty_solution_list_message]. *)
Lemma empty_solution_list_message_witness :
  run (@solve sympy) (form true "x + 1 = x + 2")
  = shown "Уравнение не имеет решений" (form true "x + 1 = x + 2").
Proof.
  apply (@empty_solution_list_message sympy (form true "x + 1 = x + 2")
           "x + 1 " " x + 2" "-1" (Integer 0));
    reflexivity.
Defined.

(** C6, as stated, fails on ["x = x"]: the difference is [0], of degree
    [-oo], for which the solver returns the empty list; the label then
    shows the message for no solutions, which is not an error report. *)
Lemma tautology_shown_as_no_solutions :
  solved true "x = x" = inr "Уравнение не имеет решений"
  /\ ~ @reports_error sympy (form true "x = x").
Proof.
  split; [reflexivity |].
  intros (w' & msg & Hrun & Htext).
  injection Hrun as <-.
  unfold error_text in Htext. simpl in Htext. discriminate.
Qed.



(** C9.  The selection fails to stay single on the first deactivation: from
    the initial state, where exactly the linear box is active, deactivating
    that box is a check-box step into a state with no active box. *)
Lemma deactivation_leaves_no_selection :
  exactly_one_active init
  /\ toggle_step init nothing_selected
  /\ ~ exactly_one_active nothing_selected.
Proof.
  split; [reflexivity | split].
  - apply (toggle_deactivate linear_check); reflexivity.
  - discriminate.
Qed.

(** [selection_invariant] in the state reached by selecting the quadratic
    box. *)
Lemma selection_invariant_witness :
  at_most_one_active (mkEquationSolver false true "" placeholder)
  /\ (exists w', run (toggle linear_check true)
                     (mkEquationSolver false true "" placeholder)
                 = inr (tt, w')
                 /\ only_active linear_check w').
Proof.
  assert (Hreach : @reachable sympy (mkEquationSolver false true "" placeholder)).
  { apply (reachable_step init); [apply reachable_init |].
    apply step_toggle. apply (toggle_activate quadratic_check); reflexivity. }
  destruct (@selection_invariant sympy _ Hreach) as (_ & Hone & Hact & _).
  split; [exact Hone |].
  apply (Hact linear_check). reflexivity.
Defined.

End Runs.

(** ** Further properties of the methods *)

Section Uniformity.

Context {sympy : SymPy}.

(** A label of a kind other than [kind_error] does not start like an error
    report. *)
Lemma success_label_not_error (ty : EquationType) (k : label_kind)
      (text msg : string) :
  k <> kind_error -> label_of_kind ty k text -> text <> "Ошибка: " ++ msg.
Proof.
  intros Hk Hkind Heq.
  destruct k; simpl in Hkind.
  - now apply Hk.
  - subst text. simpl in Heq. discriminate.
  - destruct Hkind as (_ & v & ->). simpl in Heq. discriminate.
  - destruct Hkind as (_ & v1 & v2 & ->). simpl in Heq. discriminate.
  - destruct Hkind as (_ & v & ->). simpl in Heq. discriminate.
Qed.

(** The text built for a list of solutions does not depend on the form. *)
Lemma format_result_uniform (ty : EquationType) (sols : list Obj) :
  exists text k,
    k <> kind_error
    /\ label_of_kind ty k text
    /\ forall w, run (format_result ty sols) w = inr (text, w).
Proof.
  destruct sols as [| s0 rest].
  - exists "Уравнение не имеет решений", kind_no_solutions.
    split; [discriminate |]. split; [reflexivity |].
    intros w. apply run_format_result_nil.
  - destruct ty.
    + eexists _, kind_single_root. split; [discriminate |]. split.
      * split; [reflexivity |]. now exists s0.
      * intros w. apply run_format_result_linear.
    + destruct rest as [| s1 [| s2 rest]].
      * eexists _, kind_multiple_root. split; [discriminate |]. split.
        -- split; [reflexivity |]. now exists s0.
        -- intros w. apply run_format_result_multiple. simpl; lia.
      * eexists _, kind_two_roots. split; [discriminate |]. split.
        -- split; [reflexivity |]. now exists s0, s1.
        -- intros w. apply run_format_result_two.
      * eexists _, kind_multiple_root. split; [discriminate |]. split.
        -- split; [reflexivity |]. now exists s0.
        -- intros w. apply run_format_result_multiple. simpl; lia.
Qed.

Lemma solve_sides_uniform (ty : EquationType) (l r : string) :
  (exists e, forall w, run (solve_sides ty l r) w = inl e)
  \/ (exists text k,
        k <> kind_error
        /\ label_of_kind ty k text
        /\ forall w, run (solve_sides ty l r) w
                     = inr (tt, set_result_label_text text w)).
Proof.
  destruct (parse_sides l r) as [e | expr] eqn:Hparse.
  { left. exists e. intros w. now rewrite run_solve_sides, Hparse. }
  destruct (sp_degree expr (sp_symbols "x")) as [e | d] eqn:Hdeg.
  { left. exists e. intros w. now rewrite run_solve_sides, Hparse, Hdeg. }
  destruct (EquationType_eqb ty linear && degree_gt d 1) eqn:Hlin.
  { left. eexists. intros w.
    rewrite run_solve_sides, Hparse, Hdeg, run_check_degree, Hlin.
    reflexivity. }
  destruct (EquationType_eqb ty quadratic && degree_ne d 2) eqn:Hquad.
  { left. eexists. intros w.
    rewrite run_solve_sides, Hparse, Hdeg, run_check_degree, Hlin, Hquad.
    reflexivity. }
  destruct (sp_solve expr (sp_symbols "x")) as [e | sols] eqn:Hsolve.
  { left. exists e. intros w.
    rewrite run_solve_sides, Hparse, Hdeg, run_check_degree, Hlin, Hquad.
    now rewrite run_solve_expr, Hsolve. }
  right.
  destruct (format_result_uniform ty sols) as (text & k & Hk & Hkind & Hrun).
  exists text, k. split; [exact Hk |]. split; [exact Hkind |].
  intros w.
  rewrite run_solve_sides, Hparse, Hdeg, run_check_degree, Hlin, Hquad.
  now rewrite run_solve_expr, Hsolve, Hrun.
Qed.

Lemma solve_try_uniform (ty : EquationType) (s : string) :
  (exists e, forall w,
      selected_type w = ty -> PyStr.strip (equation_input_text w) = s ->
      run solve_try w = inl e)
  \/ (exists text k,
        k <> kind_error
        /\ label_of_kind ty k text
        /\ forall w,
            selected_type w = ty -> PyStr.strip (equation_input_text w) = s ->
            run solve_try w = inr (tt, set_result_label_text text w)).
Proof.
  destruct (PyStr.is_empty s) eqn:Hempty.
  { left. eexists. intros w _ Hs.
    rewrite run_solve_try. cbv zeta. rewrite Hs, Hempty. reflexivity. }
  destruct (PyStr.contains "=" s) eqn:Hcontains.
  - destruct (PyStrFacts.contains_split_first _ _ Hcontains) as (l & r & Hsplit).
    destruct (solve_sides_uniform ty l r)
      as [(e & Hrun) | (text & k & Hk & Hkind & Hrun)].
    + left. exists e. intros w Hty Hs.
      rewrite run_solve_try. cbv zeta.
      rewrite Hs, Hempty, Hcontains, Hsplit, Hty. apply Hrun.
    + right. exists text, k. split; [exact Hk |]. split; [exact Hkind |].
      intros w Hty Hs.
      rewrite run_solve_try. cbv zeta.
      rewrite Hs, Hempty, Hcontains, Hsplit, Hty. apply Hrun.
  - left. eexists. intros w _ Hs.
    rewrite run_solve_try. cbv zeta. rewrite Hs, Hempty, Hcontains.
    reflexivity.
Qed.


(** X4.  When [solve] returns, the label starts with the error prefix
    exactly when the [try] block raised: no text of a successful run can be
    taken for an error report. *)
Theorem error_prefix_iff_raised (w w' : EquationSolver) :
  run solve w = inr (tt, w') ->
  (exists msg, result_label_text w' = "Ошибка: " ++ msg)
  <-> (exists e, run solve_try w = inl e).
Proof.
  intros Hrun. rewrite run_solve in Hrun.
  destruct (solve_try_uniform (selected_type w)
              (PyStr.strip (equation_input_text w)))
    as [(e & Htry) | (text & k & Hk & Hkind & Htry)].
  - rewrite (Htry w eq_refl eq_refl) in Hrun.
    destruct (is_Exception e); [| discriminate].
    injection Hrun as <-. split.
    + intros _. exists e. now apply Htry.
    + intros _. now exists (exn_str e).
  - rewrite (Htry w eq_refl eq_refl) in Hrun. injection Hrun as <-. split.
    + intros (msg & Hlabel). exfalso. simpl in Hlabel.
      exact (success_label_not_error _ _ _ _ Hk Hkind Hlabel).
    + intros (e & He). rewrite (Htry w eq_refl eq_refl) in He. discriminate.
Qed.

(** X5.  [solve] right after [clear_fields] always reports the missing
    equation, whatever the form held and whichever type is selected. *)
Theorem solve_after_clear (instance : Widget) (w : EquationSolver) :
  run (clear_fields instance ;; solve) w
  = inr (tt, mkEquationSolver (linear_check_active w)
                              (quadratic_check_active w)
                              "" (error_text "Введите уравнение")).
Proof.
  rewrite run_bind.
  change (run (clear_fields instance) w)
    with (@inr exn _ (tt, mkEquationSolver (linear_check_active w)
                             (quadratic_check_active w) "" placeholder)).
  cbv beta iota.
  rewrite run_solve, run_solve_try. reflexivity.
Qed.

(** X6.  [clear_fields] erases what [solve] displayed: when [solve]
    returns, [solve] followed by [clear_fields] leaves the form as
    [clear_fields] alone does; when [solve] lets an exception through,
    [clear_fields] is not reached. *)
Theorem clear_after_solve (i : Widget) (w : EquationSolver) :
  run (solve ;; clear_fields i) w
  = match run solve w with
    | inl e => inl e
    | inr _ => run (clear_fields i) w
    end.
Proof.
  rewrite run_bind.
  destruct (run solve w) as [e | [[] w']] eqn:E; [reflexivity |].
  destruct (solve_effect w tt w' E) as [text ->]. reflexivity.
Qed.

(** X7.  A change of a check box never raises and changes neither the input
    text nor the label; a deactivation changes nothing but the box itself,
    and an activation leaves the same selection whatever it was before. *)
Theorem toggle_frame (c : Widget) (v : bool) (w : EquationSolver) :
  is_checkbox c = true ->
  exists w',
    run (toggle c v) w = inr (tt, w')
    /\ equation_input_text w' = equation_input_text w
    /\ result_label_text w' = result_label_text w
    /\ (v = false -> w' = set_active c false w)
    /\ (v = true ->
        linear_check_active w' = Widget_eqb c linear_check
        /\ quadratic_check_active w' = Widget_eqb c quadratic_check).
Proof.
  intros Hc.
  destruct c; try discriminate; destruct v;
    (eexists; split; [reflexivity |]);
    repeat split; try reflexivity; discriminate.
Qed.

(** X9.  Through the events bound in [__init__] (check-box changes, edits of
    the input, button presses) the label never shows anything but the
    placeholder, and at most one box is active. *)
Theorem ui_label_stays_placeholder (w : EquationSolver) :
  ui_reachable w ->
  result_label_text w = placeholder /\ at_most_one_active w.
Proof.
  induction 1 as [| w w' _ [IHlabel IHone] Hstep].
  - split; reflexivity.
  - unfold at_most_one_active in *.
    destruct Hstep as [c v w w' Hc Hrun | t w | button w w' Hrun].
    + destruct c; try discriminate; destruct v;
        injection Hrun as <-; simpl; rewrite ?andb_false_r;
        (split; [exact IHlabel | reflexivity]).
    + split; [exact IHlabel | exact IHone].
    + destruct button; try discriminate; injection Hrun as <-;
        split; try reflexivity; assumption.
Qed.

End Uniformity.

(** ** Stripping and surrounding whitespace *)

Module PyStrStrip.
Import PyStr PyStrFacts.

Lemma append_cancel (p a b : string) : p ++ a = p ++ b -> a = b.
Proof. induction p; simpl; intros H; [exact H | injection H; auto]. Qed.

Lemma drop_prefix_append (p x : string) : drop_prefix p (p ++ x) = Some x.
Proof.
  induction p as [| a p IH]; simpl; [reflexivity |].
  now rewrite Ascii.eqb_refl.
Qed.

(** Two ways of cutting the same string: one left part extends the other. *)
Lemma append_compare (t post q r : string) :
  t ++ post = q ++ r ->
  (exists y, t = q ++ y)
  \/ (exists u, u <> "" /\ q = t ++ u /\ post = u ++ r).
Proof.
  revert q; induction t as [| a t IH]; intros q H.
  - destruct q as [| b q].
    + left. now exists "".
    + right. exists (String b q). simpl in H. now repeat split.
  - destruct q as [| b q].
    + left. now exists (String a t).
    + simpl in H. injection H as -> H.
      destruct (IH q H) as [(y & ->) | (u & Hu & -> & ->)].
      * left. now exists y.
      * right. now exists u.
Qed.

Lemma drop_any_pattern (ps : list string) (q x : string) :
  In q ps -> drop_any ps (q ++ x) <> None.
Proof.
  induction ps as [| p ps IH]; simpl; [tauto |].
  intros [-> | Hq].
  - now rewrite drop_prefix_append.
  - destruct (drop_prefix p (q ++ x)); [discriminate | now apply IH].
Qed.

Lemma prefix_free_eq (ps : list string) (p q a b : string) :
  prefix_free ps = true -> In p ps -> In q ps ->
  p ++ a = q ++ b -> p = q /\ a = b.
Proof.
  intros Hfree Hp Hq H.
  assert (Hpq : forall p q x, In p ps -> In q ps -> q = p ++ x -> p = q).
  { clear - Hfree. intros p q x Hp Hq ->.
    unfold prefix_free in Hfree. rewrite forallb_forall in Hfree.
    specialize (Hfree p Hp). rewrite forallb_forall in Hfree.
    specialize (Hfree _ Hq). rewrite drop_prefix_append in Hfree.
    now apply String.eqb_eq. }
  assert (p = q) as ->.
  { destruct (append_compare _ _ _ _ H) as [(y & Hy) | (u & _ & Hu & _)].
    - symmetry. exact (Hpq q p y Hq Hp Hy).
    - exact (Hpq p q u Hp Hq Hu). }
  split; [reflexivity | now apply append_cancel in H].
Qed.

Lemma made_of_append (ps : list string) (a b : string) :
  made_of ps a -> made_of ps b -> made_of ps (a ++ b).
Proof.
  intros Ha Hb. induction Ha as [| p a Hp Ha IH]; [exact Hb |].
  rewrite append_assoc. now constructor.
Qed.

Lemma made_of_rev_map (ps : list string) (s : string) :
  made_of ps s -> made_of (map rev ps) (rev s).
Proof.
  induction 1 as [| p s Hp Hs IH]; [constructor |].
  rewrite rev_app. apply made_of_snoc; [exact IH |].
  now apply in_map.
Qed.

(** With enough fuel, stripping a run of patterns in front of a string on
    which no pattern matches gives that string back. *)
Lemma lstrip_fuel_unique (ps : list string) (pre r : string) (fuel : nat) :
  prefix_free ps = true ->
  Forall (fun p => p <> "") ps ->
  made_of ps pre ->
  drop_any ps r = None ->
  String.length (pre ++ r) <= fuel ->
  lstrip_fuel ps fuel (pre ++ r) = r.
Proof.
  intros Hfree Hne Hpre Hr. revert fuel.
  induction Hpre as [| p pre Hp Hpre IH]; intros fuel Hlen.
  - destruct fuel; simpl; [reflexivity | now rewrite Hr].
  - assert (Hp' : p <> "") by (rewrite Forall_forall in Hne; now apply Hne).
    rewrite append_assoc in *. rewrite length_append in Hlen.
    destruct fuel as [| fuel].
    { destruct p; [congruence | simpl in Hlen; lia]. }
    simpl.
    destruct (drop_any ps (p ++ pre ++ r)) as [rest |] eqn:E.
    + destruct (drop_any_some _ _ _ E) as (q & Hq & Heq).
      destruct (prefix_free_eq ps _ _ _ _ Hfree Hp Hq Heq) as [_ <-].
      apply IH. destruct p; [congruence | simpl in Hlen; lia].
    + now apply drop_any_pattern in E.
Qed.

Lemma lstrip_fuel_absorb (ps : list string) (pre s : string) :
  prefix_free ps = true ->
  Forall (fun p => p <> "") ps ->
  made_of ps pre ->
  lstrip_fuel ps (String.length (pre ++ s)) (pre ++ s)
  = lstrip_fuel ps (String.length s) s.
Proof.
  intros Hfree Hne Hpre.
  destruct (lstrip_fuel_decompose ps (String.length s) s) as (pre_s & Hs & Hpre_s).
  assert (Hr := lstrip_fuel_stable ps (String.length s) s Hne (le_n _)).
  set (r := lstrip_fuel ps (String.length s) s) in *.
  rewrite Hs at 1 2. rewrite <- append_assoc.
  apply lstrip_fuel_unique; auto using made_of_append.
Qed.

Lemma whitespace_prefix_free : prefix_free whitespace = true.
Proof. vm_compute. reflexivity. Qed.

Lemma rev_whitespace_prefix_free : prefix_free (map rev whitespace) = true.
Proof. vm_compute. reflexivity. Qed.

Lemma whitespace_overlap_free : overlap_free whitespace = true.
Proof. vm_compute. reflexivity. Qed.

Lemma lstrip_absorb (pre s : string) :
  blank pre -> lstrip (pre ++ s) = lstrip s.
Proof.
  intros Hpre. unfold lstrip.
  apply lstrip_fuel_absorb;
    auto using whitespace_prefix_free, whitespace_nonempty.
Qed.

Lemma rstrip_absorb (s post : string) :
  blank post -> rstrip (s ++ post) = rstrip s.
Proof.
  intros Hpost. unfold rstrip. f_equal.
  rewrite rev_app.
  replace (String.length (s ++ post))
    with (String.length (rev post ++ rev s))
    by (rewrite !length_append, !length_rev; lia).
  rewrite <- (length_rev s).
  apply lstrip_fuel_absorb;
    auto using rev_whitespace_prefix_free, rev_whitespace_nonempty,
               made_of_rev_map.
Qed.

Lemma in_tails (t u : string) : t <> "" -> u <> "" -> In u (tails (t ++ u)).
Proof.
  induction t as [| a t IH]; intros Ht Hu; [congruence |].
  simpl. destruct t as [| b t]; [now left | right].
  apply IH; [discriminate | exact Hu].
Qed.

(** A non-empty string with no whitespace in front keeps none in front when
    whitespace is appended. *)
Lemma drop_any_blank_after (t post : string) :
  t <> "" -> drop_any whitespace t = None -> blank post ->
  drop_any whitespace (t ++ post) = None.
Proof.
  intros Ht Hnone Hpost.
  destruct (drop_any whitespace (t ++ post)) as [r |] eqn:E; [| reflexivity].
  exfalso.
  destruct (drop_any_some _ _ _ E) as (q & Hq & Heq).
  destruct (append_compare _ _ _ _ Heq) as [(y & ->) | (u & Hu & -> & ->)].
  - now apply (drop_any_pattern whitespace q y Hq).
  - inversion Hpost as [Hnil | p post' Hp Hpost' Hcut].
    + destruct u; [congruence | discriminate].
    + assert (Hhead : same_head u p = true).
      { destruct u as [| a u]; [congruence |].
        destruct p as [| b p].
        - pose proof whitespace_nonempty as Hne.
          rewrite Forall_forall in Hne. now apply Hne in Hp.
        - simpl in Hcut. injection Hcut as -> _. simpl.
          apply Ascii.eqb_refl. }
      pose proof whitespace_overlap_free as Hfree.
      unfold overlap_free in Hfree. rewrite forallb_forall in Hfree.
      specialize (Hfree _ Hq). rewrite forallb_forall in Hfree.
      specialize (Hfree u (in_tails t u Ht Hu)).
      rewrite forallb_forall in Hfree. specialize (Hfree p Hp).
      rewrite Hhead in Hfree. discriminate.
Qed.

(** [strip] gives the same string with or without whitespace around it. *)
Lemma strip_absorb (pre s post : string) :
  blank pre -> blank post -> strip (pre ++ s ++ post) = strip s.
Proof.
  intros Hpre Hpost. unfold strip. rewrite (lstrip_absorb pre _ Hpre).
  destruct (lstrip_decompose s) as (pre_s & Hs & Hpre_s).
  assert (Hr : drop_any whitespace (lstrip s) = None)
    by (apply lstrip_fuel_stable; [apply whitespace_nonempty | lia]).
  assert (Hcut : lstrip (s ++ post)
                 = if is_empty (lstrip s) then "" else lstrip s ++ post).
  { rewrite Hs at 1. rewrite append_assoc. rewrite lstrip_absorb by exact Hpre_s.
    destruct (lstrip s) as [| a t] eqn:Ht; simpl is_empty; cbv iota.
    - change ("" ++ post) with post. unfold lstrip.
      rewrite <- (append_nil_r post).
      apply (lstrip_fuel_unique whitespace post "" _
               whitespace_prefix_free whitespace_nonempty Hpost eq_refl).
      apply le_n.
    - unfold lstrip.
      apply (lstrip_fuel_unique whitespace "" (String a t ++ post) _
               whitespace_prefix_free whitespace_nonempty (made_of_nil _)).
      + apply drop_any_blank_after; [discriminate | exact Hr | exact Hpost].
      + apply le_n. }
  rewrite Hcut.
  destruct (lstrip s) as [| a t]; simpl is_empty; cbv iota.
  - reflexivity.
  - now apply rstrip_absorb.
Qed.

Lemma strip_idempotent (s : string) : strip (strip s) = strip s.
Proof.
  destruct (strip_decompose s) as (pre & post & Hs & Hpre & Hpost).
  rewrite Hs at 2. symmetry. now apply strip_absorb.
Qed.

(** X11.  The text [solve] works on is insensitive to whitespace around the
    input: stripping the input with runs of whitespace put before and after
    it gives what stripping the input gives, and stripping twice is
    stripping once. *)
Theorem strip_ignores_surrounding_whitespace (pre s post : string) :
  blank pre -> blank post ->
  strip (pre ++ s ++ post) = strip s
  /\ strip (strip (pre ++ s ++ post)) = strip s.
Proof.
  intros Hpre Hpost.
  rewrite strip_idempotent. split; now apply strip_absorb.
Qed.

Lemma strip_empty_blank (s : string) : strip s = "" -> blank s.
Proof.
  intros H.
  destruct (strip_decompose s) as (pre & post & Hs & Hpre & Hpost).
  rewrite H in Hs. simpl in Hs. rewrite Hs.
  now apply made_of_append.
Qed.

End PyStrStrip.

(** ** Concrete runs for the further properties *)

Module MoreRuns.
Import Session.

Lemma toggle_frame_witness :
  exists w',
    run (toggle quadratic_check true) (form true "x = 1") = inr (tt, w')
    /\ equation_input_text w' = "x = 1"
    /\ result_label_text w' = placeholder.
Proof.
  destruct (toggle_frame quadratic_check true (form true "x = 1") eq_refl)
    as (w' & Hrun & Htext & Hlabel & _).
  exists w'. repeat split; assumption.
Defined.

(** The form after typing an equation, selecting the quadratic type and
    pressing the clear button. *)
Lemma ui_label_stays_placeholder_witness :
  result_label_text (mkEquationSolver false true "" placeholder) = placeholder
  /\ at_most_one_active (mkEquationSolver false true "" placeholder).
Proof.
  apply ui_label_stays_placeholder.
  apply (ui_reachable_step (mkEquationSolver false true "x**2 = 4" placeholder)).
  - apply (ui_reachable_step (mkEquationSolver true false "x**2 = 4" placeholder)).
    + apply (ui_reachable_step init); [apply ui_reachable_init |].
      apply (ui_edit "x**2 = 4" init).
    + apply (ui_change quadratic_check true); reflexivity.
  - apply (ui_press clear_button). reflexivity.
Defined.

(** A linear equation that is solved. *)
Lemma error_prefix_iff_raised_witness :
  (exists msg,
      ("Решение уравнения:" ++ PyStr.nl ++ "x = -0.6667") = "Ошибка: " ++ msg)
  <-> (exists e, run (@solve_try sympy) (form true "3*x + 2 = 0") = inl e).
Proof.
  apply (@error_prefix_iff_raised sympy (form true "3*x + 2 = 0")
           (set_result_label_text
              ("Решение уравнения:" ++ PyStr.nl ++ "x = -0.6667")
              (form true "3*x + 2 = 0"))).
  reflexivity.
Defined.

(** Two spaces in front, a tab and a no-break space behind. *)
Lemma strip_ignores_surrounding_whitespace_witness :
  PyStr.strip ("  " ++ "3*x + 2 = 0" ++ PyStr.bytes [9; 194; 160])
  = "3*x + 2 = 0".
Proof.
  rewrite (proj1 (PyStrStrip.strip_ignores_surrounding_whitespace
                    "  " "3*x + 2 = 0" (PyStr.bytes [9; 194; 160])
                    (PyStrStrip.strip_empty_blank "  " eq_refl)
                    (PyStrStrip.strip_empty_blank (PyStr.bytes [9; 194; 160])
                                                  eq_refl))).
  reflexivity.
Defined.

End MoreRuns.


(** ** The computing instance keeps the contract *)

Module MiniFacts.
Import Mini.

(** *** Coefficients *)

Lemma coef_nil (i : nat) : coef [] i = 0%Q.
Proof. destruct i; reflexivity. Qed.

Lemma coef_padd (p q : list Q) (i : nat) :
  (coef (padd p q) i == coef p i + coef q i)%Q.
Proof.
  revert q i; induction p as [| a p IH]; intros q i.
  - simpl padd. rewrite coef_nil. ring.
  - destruct q as [| b q].
    + simpl padd. rewrite coef_nil. ring.
    + destruct i as [| i]; unfold coef; cbn [padd nth];
        [ring | apply IH].
Qed.

Lemma coef_pneg (p : list Q) (i : nat) : (coef (pneg p) i == - coef p i)%Q.
Proof.
  revert i; induction p as [| a p IH]; intros i.
  - cbn [pneg map]. rewrite coef_nil. ring.
  - destruct i as [| i]; unfold coef, pneg; cbn [map nth];
      [ring | apply IH].
Qed.

Lemma coef_psub (p q : list Q) (i : nat) :
  (coef (psub p q) i == coef p i - coef q i)%Q.
Proof. unfold psub. rewrite coef_padd, coef_pneg. ring. Qed.

Lemma coef_skipn (k : nat) (p : list Q) (i : nat) :
  coef (skipn k p) i = coef p (k + i).
Proof.
  revert p; induction k as [| k IH]; intros p; [reflexivity |].
  destruct p as [| a p]; simpl; [now rewrite !coef_nil | apply IH].
Qed.

Lemma all_zero_spec (p : list Q) :
  all_zero p = true <-> forall i, (coef p i == 0)%Q.
Proof.
  induction p as [| a p IH]; simpl.
  - split; [intros _ i; rewrite coef_nil; reflexivity | reflexivity].
  - rewrite andb_true_iff, IH, Qeq_bool_iff. split.
    + intros [Ha Hp] [| i]; [exact Ha | apply Hp].
    + intros H. split; [exact (H 0%nat) | intros i; exact (H (S i))].
Qed.

Lemma Qeq_bool_compat (a a' : Q) : (a == a')%Q -> Qeq_bool a 0 = Qeq_bool a' 0.
Proof.
  intros H. destruct (Qeq_bool a' 0) eqn:E.
  - apply Qeq_bool_iff. rewrite H. now apply Qeq_bool_iff.
  - destruct (Qeq_bool a 0) eqn:E'; [| reflexivity].
    apply Qeq_bool_iff in E'. rewrite H in E'.
    apply Qeq_bool_iff in E'. congruence.
Qed.

Lemma poly_degree_compat (a b c a' b' c' : Q) :
  (a == a')%Q -> (b == b')%Q -> (c == c')%Q ->
  poly_degree a b c = poly_degree a' b' c'.
Proof.
  intros Ha Hb Hc. unfold poly_degree.
  now rewrite (Qeq_bool_compat _ _ Ha), (Qeq_bool_compat _ _ Hb),
    (Qeq_bool_compat _ _ Hc).
Qed.

Lemma pdegree_all_zero (p : list Q) :
  all_zero p = true -> pdegree p = NegativeInfinity.
Proof.
  induction p as [| a p IH]; simpl; [reflexivity |].
  rewrite andb_true_iff. intros [Ha Hp]. now rewrite (IH Hp), Ha.
Qed.

Lemma pdegree_low (p : list Q) :
  all_zero (skipn 3 p) = true ->
  pdegree p = poly_degree (coef p 2) (coef p 1) (coef p 0).
Proof.
  destruct p as [| c0 [| c1 [| c2 rest]]]; simpl skipn; intros H.
  - reflexivity.
  - unfold poly_degree, coef; simpl. now destruct (Qeq_bool c0 0).
  - unfold poly_degree, coef; simpl.
    destruct (Qeq_bool c1 0); [now destruct (Qeq_bool c0 0) | reflexivity].
  - unfold poly_degree, coef; simpl. rewrite (pdegree_all_zero rest H).
    destruct (Qeq_bool c2 0); [| reflexivity].
    destruct (Qeq_bool c1 0); [now destruct (Qeq_bool c0 0) | reflexivity].
Qed.

Lemma mini_sub_law (lhs rhs : obj) (a1 b1 c1 a2 b2 c2 : Q) :
  is_poly lhs a1 b1 c1 -> is_poly rhs a2 b2 c2 ->
  exists e, sp_sub lhs rhs = inr e
            /\ is_poly e (a1 - a2)%Q (b1 - b2)%Q (c1 - c2)%Q.
Proof.
  destruct lhs as [p | | |]; cbn [is_poly]; try tauto.
  destruct rhs as [q | | |]; cbn [is_poly]; try tauto.
  intros (Ha1 & Hb1 & Hc1 & Hp) (Ha2 & Hb2 & Hc2 & Hq).
  exists (Poly (psub p q)). split; [reflexivity |]. cbn [is_poly].
  split; [now rewrite coef_psub, Ha1, Ha2 |].
  split; [now rewrite coef_psub, Hb1, Hb2 |].
  split; [now rewrite coef_psub, Hc1, Hc2 |].
  apply all_zero_spec. intros i. rewrite coef_skipn, coef_psub.
  pose proof (proj1 (all_zero_spec _) Hp i) as Hpi.
  pose proof (proj1 (all_zero_spec _) Hq i) as Hqi.
  rewrite coef_skipn in Hpi, Hqi. rewrite Hpi, Hqi. ring.
Qed.

Lemma mini_degree_law (e : obj) (a b c : Q) :
  is_poly e a b c -> sp_degree e (Poly [0%Q; 1%Q]) = inr (poly_degree a b c).
Proof.
  destruct e as [p | | |]; cbn [is_poly]; try tauto.
  intros (Ha & Hb & Hc & Hp). cbn [sp_degree]. f_equal.
  rewrite (pdegree_low p Hp). now apply poly_degree_compat.
Qed.

(** *** Solving *)

Lemma Q2R_2 : Q2R 2 = 2%R.
Proof. unfold Q2R; simpl. lra. Qed.

Lemma exact_sqrt_spec (q s : Q) :
  exact_sqrt q = Some s -> (s * s == q)%Q /\ (0 <= s)%Q.
Proof.
  unfold exact_sqrt.
  destruct (Z.sqrt (Qnum q * Z.pos (Qden q)) * Z.sqrt (Qnum q * Z.pos (Qden q))
            =? Qnum q * Z.pos (Qden q))%Z eqn:E; [| discriminate].
  intros H; injection H as <-. apply Z.eqb_eq in E.
  split.
  - unfold Qeq; cbn [Qmult Qnum Qden]. rewrite E, Pos2Z.inj_mul. ring.
  - unfold Qle; cbn [Qnum Qden]. pose proof (Z.sqrt_nonneg (Qnum q * Z.pos (Qden q))). lia.
Qed.

Lemma sqrt_Q2R (q s : Q) :
  (s * s == q)%Q -> (0 <= s)%Q -> sqrt (Q2R q) = Q2R s.
Proof.
  intros Hs Hpos.
  assert (H0 : (0 <= Q2R s)%R).
  { replace 0%R with (Q2R 0) by (unfold Q2R; simpl; lra). now apply Qle_Rle. }
  apply sqrt_lem_1; [| exact H0 |].
  - rewrite <- (Qeq_eqR _ _ Hs), Q2R_mult. now apply Rmult_le_pos.
  - rewrite <- (Qeq_eqR _ _ Hs), Q2R_mult. reflexivity.
Qed.

Lemma two_a_nonzero (a : Q) : ~ (a == 0)%Q -> ~ (2 * a == 0)%Q.
Proof.
  intros Ha H. apply Ha. apply Qmult_integral in H. destruct H as [H | H]; [discriminate H | exact H].
Qed.

Lemma Q2R_root (b s a : Q) :
  ~ (a == 0)%Q ->
  Q2R ((- b + s) / (2 * a)) = ((- Q2R b + Q2R s) / (2 * Q2R a))%R.
Proof.
  intros Ha. rewrite Q2R_div by now apply two_a_nonzero.
  now rewrite Q2R_plus, Q2R_opp, Q2R_mult, Q2R_2.
Qed.

Lemma mini_solve_linear_law (e : obj) (a b c : Q) :
  is_poly e a b c -> (a == 0)%Q -> ~ (b == 0)%Q ->
  exists root, sp_solve e (Poly [0%Q; 1%Q]) = inr [root]
               /\ is_real root (Q2R (- c / b)).
Proof.
  destruct e as [p | | |]; cbn [is_poly]; try tauto.
  intros (Ha & Hb & Hc & Hp) Ha0 Hb0.
  exists (Num (Qred (- coef p 0 / coef p 1))). split.
  - cbn [sp_solve]. rewrite Hp. cbn [negb].
    replace (Qeq_bool (coef p 2) 0) with true
      by (symmetry; apply Qeq_bool_iff; now rewrite Ha).
    replace (Qeq_bool (coef p 1) 0) with false; [reflexivity |].
    symmetry. destruct (Qeq_bool (coef p 1) 0) eqn:E; [| reflexivity].
    apply Qeq_bool_iff in E. rewrite Hb in E. contradiction.
  - cbn [is_real]. apply Qeq_eqR. now rewrite Qred_correct, Hb, Hc.
Qed.

Lemma mini_solve_double_law (e : obj) (a b c : Q) :
  is_poly e a b c -> ~ (a == 0)%Q -> (discriminant a b c == 0)%Q ->
  exists root, sp_solve e (Poly [0%Q; 1%Q]) = inr [root]
               /\ is_real root (Q2R (- b / (2 * a))).
Proof.
  destruct e as [p | | |]; cbn [is_poly]; try tauto.
  intros (Ha & Hb & Hc & Hp) Ha0 HD.
  exists (Num (Qred (- coef p 1 / (2 * coef p 2)))). split.
  - cbn [sp_solve]. rewrite Hp. cbn [negb].
    replace (Qeq_bool (coef p 2) 0) with false.
    + replace (discriminant (coef p 2) (coef p 1) (coef p 0) ?= 0)%Q with Eq;
        [reflexivity |].
      symmetry. apply Qeq_alt. unfold discriminant in *.
      now rewrite Ha, Hb, Hc.
    + symmetry. destruct (Qeq_bool (coef p 2) 0) eqn:E; [| reflexivity].
      apply Qeq_bool_iff in E. rewrite Ha in E. contradiction.
  - cbn [is_real]. apply Qeq_eqR. now rewrite Qred_correct, Ha, Hb.
Qed.

Lemma mini_solve_two_law (e : obj) (a b c : Q) :
  is_poly e a b c -> ~ (a == 0)%Q -> (0 < discriminant a b c)%Q ->
  exists r1 r2 v1 v2,
    sp_solve e (Poly [0%Q; 1%Q]) = inr [r1; r2]
    /\ is_real r1 v1 /\ is_real r2 v2
    /\ quadratic_formula a b c v1 v2.
Proof.
  destruct e as [p | | |]; cbn [is_poly]; try tauto.
  intros (Ha & Hb & Hc & Hp) Ha0 HD.
  assert (HD' : (discriminant (coef p 2) (coef p 1) (coef p 0)
                 == discriminant a b c)%Q).
  { unfold discriminant. now rewrite Ha, Hb, Hc. }
  assert (Hsolve : sp_solve (Poly p) (Poly [0%Q; 1%Q])
          = match exact_sqrt (discriminant (coef p 2) (coef p 1) (coef p 0)) with
            | Some s =>
                let r1 := ((- coef p 1 - s) / (2 * coef p 2))%Q in
                let r2 := ((- coef p 1 + s) / (2 * coef p 2))%Q in
                if Qle_bool r1 r2
                then inr [Num (Qred r1); Num (Qred r2)]
                else inr [Num (Qred r2); Num (Qred r1)]
            | None =>
                inr [Surd (- coef p 1 / (2 * coef p 2)) (- (1 / (2 * coef p 2)))
                          (discriminant (coef p 2) (coef p 1) (coef p 0));
                     Surd (- coef p 1 / (2 * coef p 2)) (1 / (2 * coef p 2))
                          (discriminant (coef p 2) (coef p 1) (coef p 0))]
            end).
  { cbn [sp_solve]. rewrite Hp. cbn [negb].
    replace (Qeq_bool (coef p 2) 0) with false.
    - replace (discriminant (coef p 2) (coef p 1) (coef p 0) ?= 0)%Q with Gt;
        [reflexivity |].
      symmetry. apply Qgt_alt. now rewrite HD'.
    - symmetry. destruct (Qeq_bool (coef p 2) 0) eqn:E; [| reflexivity].
      apply Qeq_bool_iff in E. rewrite Ha in E. contradiction. }
  rewrite Hsolve. clear Hsolve.
  assert (Hlo : forall s : Q,
             Q2R (Qred ((- coef p 1 - s) / (2 * coef p 2)))
             = ((- Q2R b - Q2R s) / (2 * Q2R a))%R).
  { intros s. rewrite (Qeq_eqR _ ((- b + - s) / (2 * a))).
    - rewrite Q2R_root by exact Ha0. rewrite Q2R_opp. reflexivity.
    - rewrite Qred_correct, Ha, Hb. reflexivity. }
  assert (Hhi : forall s : Q,
             Q2R (Qred ((- coef p 1 + s) / (2 * coef p 2)))
             = ((- Q2R b + Q2R s) / (2 * Q2R a))%R).
  { intros s. rewrite (Qeq_eqR _ ((- b + s) / (2 * a))).
    - now apply Q2R_root.
    - rewrite Qred_correct, Ha, Hb. reflexivity. }
  destruct (exact_sqrt _) as [s |] eqn:Es.
  - destruct (exact_sqrt_spec _ _ Es) as [Hs Hpos].
    rewrite HD' in Hs.
    pose proof (sqrt_Q2R _ _ Hs Hpos) as Hsqrt.
    cbv zeta. destruct (Qle_bool _ _).
    + do 4 eexists. split; [reflexivity |]. cbn [is_real].
      split; [reflexivity |]. split; [reflexivity |].
      left. cbv zeta. rewrite Hsqrt, Hlo, Hhi. now split.
    + do 4 eexists. split; [reflexivity |]. cbn [is_real].
      split; [reflexivity |]. split; [reflexivity |].
      right. cbv zeta. rewrite Hsqrt, Hlo, Hhi. now split.
  - do 4 eexists. split; [reflexivity |]. cbn [is_real].
    split; [reflexivity |]. split; [reflexivity |].
    left. cbv zeta. rewrite (Qeq_eqR _ _ HD').
    assert (H2a : ~ (2 * coef p 2 == 0)%Q).
    { apply two_a_nonzero. now rewrite Ha. }
    assert (HRa : Q2R a <> 0%R).
    { intros H. apply Ha0. apply eqR_Qeq. rewrite H. unfold Q2R; simpl; lra. }
    rewrite Q2R_opp, !Q2R_div by exact H2a.
    rewrite Q2R_opp, Q2R_mult, Q2R_2, (Qeq_eqR _ _ Ha), (Qeq_eqR _ _ Hb).
    replace (Q2R 1) with 1%R by (unfold Q2R; simpl; lra).
    split; field; exact HRa.
Qed.

(** *** Rounding *)

Lemma round_half_close (N T : Z) :
  (0 < T)%Z -> (1000 * T <= N)%Z ->
  (Z.abs ((2 * N + T) / (2 * T) * T - N) * 1000 <= N)%Z.
Proof.
  intros HT HN.
  pose proof (Z.div_mod (2 * N + T) (2 * T) ltac:(lia)) as Hdiv.
  pose proof (Z.mod_pos_bound (2 * N + T) (2 * T) ltac:(lia)) as Hmod.
  set (m := ((2 * N + T) / (2 * T))%Z) in *.
  set (k := ((2 * N + T) mod (2 * T))%Z) in *.
  replace (2 * T * m)%Z with (2 * (m * T))%Z in Hdiv by ring.
  set (mT := (m * T)%Z) in *. lia.
Qed.

Lemma signed_close (negative : bool) (m T N : Z) :
  (0 <= N)%Z ->
  (Z.abs (m * T - N) * 1000 <= N)%Z ->
  (Z.abs ((if negative then - m else m) * T - (if negative then - N else N))
   * 1000
   <= Z.abs (if negative then - N else N))%Z.
Proof.
  intros HN H. destruct negative.
  - replace (- m * T - - N)%Z with (- (m * T - N))%Z by ring.
    rewrite !Z.abs_opp. lia.
  - lia.
Qed.

Lemma within_4_digits_scaled (approx exact k : R) (a b : Z) :
  (0 < k)%R -> (approx * k = IZR a)%R -> (exact * k = IZR b)%R ->
  (Z.abs (a - b) * 1000 <= Z.abs b)%Z ->
  within_4_digits approx exact.
Proof.
  intros Hk Ha Hb H. unfold within_4_digits.
  apply (Rmult_le_reg_r k); [exact Hk |].
  replace (Rabs (approx - exact) * 1000 * k)%R
    with (Rabs ((approx - exact) * k) * 1000)%R.
  - replace (Rabs exact * k)%R with (Rabs (exact * k)).
    + rewrite Rmult_minus_distr_r, Ha, Hb, <- minus_IZR, <- !abs_IZR.
      rewrite <- mult_IZR. now apply IZR_le.
    + rewrite Rabs_mult, (Rabs_right k) by lra. reflexivity.
  - rewrite Rabs_mult, (Rabs_right k) by lra. ring.
Qed.

Lemma sign_of_numerator (z : Z) :
  z = (if (z <? 0)%Z then - Z.abs z else Z.abs z)%Z.
Proof. destruct (Z.ltb_spec z 0); lia. Qed.

Lemma round4_close (q : Q) (negative : bool) (m e : Z) :
  round4 q = Some (negative, m, e) ->
  within_4_digits (Q2R (float_value negative m e)) (Q2R q).
Proof.
  unfold round4.
  destruct (find _ _) as [e' |] eqn:Hfind; [| discriminate].
  intros H; injection H as <- <- <-.
  apply find_some in Hfind. destruct Hfind as [_ Hb].
  set (n := Z.abs (Qnum q)) in *.
  set (d := Z.pos (Qden q)) in *.
  assert (Hd : (0 < d)%Z) by (subst d; lia).
  assert (Hn : (0 <= n)%Z) by (subst n; lia).
  assert (HRd : (0 < IZR d)%R) by now apply IZR_lt.
  unfold bracket, mantissa, float_value in *.
  destruct (Z.leb_spec 0 e') as [He | He].
  - apply andb_true_iff in Hb. destruct Hb as [Hlo _]. apply Z.leb_le in Hlo.
    assert (HP : (0 < 10 ^ e')%Z) by (apply Z.pow_pos_nonneg; lia).
    set (P := (10 ^ e')%Z) in *.
    apply (within_4_digits_scaled _ _ (IZR d)
             ((if (Qnum q <? 0)%Z
               then - ((2 * n + P * d) / (2 * (P * d)))
               else (2 * n + P * d) / (2 * (P * d))) * (P * d))%Z
             (Qnum q)); [exact HRd | | |].
    + unfold Q2R, inject_Z; cbn [Qnum Qden].
      rewrite !mult_IZR. field.
    + unfold Q2R. fold d. field. lra.
    + rewrite (sign_of_numerator (Qnum q)) at 2 3. fold n.
      apply signed_close; [exact Hn |].
      apply round_half_close; lia.
  - apply andb_true_iff in Hb. destruct Hb as [Hlo _]. apply Z.leb_le in Hlo.
    assert (HP : (0 < 10 ^ (- e'))%Z) by (apply Z.pow_pos_nonneg; lia).
    set (P := (10 ^ (- e'))%Z) in *.
    assert (HRP : (0 < IZR P)%R) by now apply IZR_lt.
    apply (within_4_digits_scaled _ _ (IZR P * IZR d)
             ((if (Qnum q <? 0)%Z
               then - ((2 * (n * P) + d) / (2 * d))
               else (2 * (n * P) + d) / (2 * d)) * d)%Z
             (Qnum q * P)%Z); [now apply Rmult_lt_0_compat | | |].
    + unfold Q2R; cbn [Qnum Qden]. rewrite Z2Pos.id by exact HP.
      rewrite !mult_IZR. field. lra.
    + unfold Q2R. fold d. rewrite mult_IZR. field. lra.
    + rewrite (sign_of_numerator (Qnum q)) at 2 3. fold n.
      replace ((if (Qnum q <? 0)%Z then - n else n) * P)%Z
        with (if (Qnum q <? 0)%Z then - (n * P) else n * P)%Z
        by (destruct (Qnum q <? 0)%Z; ring).
      apply signed_close; [lia |].
      apply round_half_close; lia.
Qed.

Lemma mini_N_law (v : obj) (r : R) (n : obj) :
  is_real v r -> sp_N v 4 = inr n ->
  exists r', is_real n r' /\ within_4_digits r' r.
Proof.
  destruct v as [p | q | u v' d | negative m e]; cbn [is_real sp_N Nat.eqb negb].
  - tauto.
  - intros ->. destruct (Qeq_bool q 0) eqn:Eq.
    + intros H; injection H as <-. exists (Q2R 0). split; [reflexivity |].
      apply Qeq_bool_iff in Eq. rewrite (Qeq_eqR _ _ Eq).
      apply within_4_digits_refl.
    + destruct (round4 q) as [[[negative m] e] |] eqn:Er; [| discriminate].
      intros H; injection H as <-.
      exists (Q2R (float_value negative m e)). split; [reflexivity |].
      now apply round4_close.
  - discriminate.
  - intros -> H; injection H as <-. eexists. split; [reflexivity |].
    apply within_4_digits_refl.
Qed.

(** *** The contract *)

Lemma mini_lawful : @lawful sympy is_poly is_real.
Proof.
  constructor.
  - exact mini_sub_law.
  - exact mini_degree_law.
  - exact mini_solve_linear_law.
  - exact mini_solve_double_law.
  - exact mini_solve_two_law.
  - exact mini_N_law.
Qed.

End MiniFacts.

(** ** Concrete runs on the computing instance *)

Module MiniRuns.

(** The label after ["3*x + 2 = 0"] under the linear type, and the number
    behind the digits it shows. *)
Lemma linear_single_root_witness :
  Mini.solved true "3*x + 2 = 0"
  = inr ("Решение уравнения:" ++ PyStr.nl ++ "x = -0.6667")
  /\ exists (shown_root : Mini.obj) (v : R),
       Mini.py_str shown_root = "-0.6667"
       /\ Mini.is_real shown_root v
       /\ within_4_digits v (Q2R ((0 - 2) / 3)).
Proof.
  split; [vm_compute; reflexivity |].
  destruct (@linear_single_root Mini.sympy Mini.is_poly Mini.is_real
              (Mini.form true "3*x + 2 = 0") "3*x + 2 " " 0"
              (Mini.Poly [0 + 3 * 0 + 2; 3 * 1 + 0]%Q) (Mini.Poly [0%Q])
              3%Q 2%Q 0%Q MiniFacts.mini_lawful)
    as (expr & root & shown_root & v & _ & _ & _ & Hrun & Hreal & Hclose).
  - reflexivity.
  - vm_compute; reflexivity.
  - vm_compute; reflexivity.
  - vm_compute; reflexivity.
  - repeat split; reflexivity.
  - repeat split; reflexivity.
  - intros H; vm_compute in H; discriminate H.
  - exists shown_root, v. split; [| split; assumption].
    apply (PyStrStrip.append_cancel
             ("Решение уравнения:" ++ PyStr.nl ++ "x = ")).
    assert (Hconcrete :
              run (@solve Mini.sympy) (Mini.form true "3*x + 2 = 0")
              = shown (("Решение уравнения:" ++ PyStr.nl ++ "x = ")
                       ++ "-0.6667")
                      (Mini.form true "3*x + 2 = 0"))
      by (vm_compute; reflexivity).
    rewrite Hconcrete in Hrun.
    apply (f_equal (fun result : exn + (unit * EquationSolver) =>
                      match result with
                      | inr (_, w) => result_label_text w
                      | inl _ => ""
                      end)) in Hrun.
    symmetry. exact Hrun.
Defined.

(** ["x**2 - 4 = 0"] under the quadratic type: two roots, whose values are
    the two distinct ones of the formula; ["x**2 - 4*x + 4 = 0"]: the double
    root, shown once as [2.000]. *)
Lemma quadratic_roots_witness :
  Mini.solved false "x**2 - 4 = 0"
  = inr ("Корни уравнения:" ++ PyStr.nl ++ "x1 = -2.000"
         ++ PyStr.nl ++ "x2 = 2.000")
  /\ Mini.solved false "x**2 - 4*x + 4 = 0"
     = inr ("Корень уравнения (кратный):" ++ PyStr.nl ++ "x = 2.000")
  /\ (exists (shown1 shown2 : Mini.obj) (v1 v2 u1 u2 : R),
        quadratic_formula 1 0 (-4) v1 v2 /\ v1 <> v2
        /\ Mini.is_real shown1 u1 /\ within_4_digits u1 v1
        /\ Mini.is_real shown2 u2 /\ within_4_digits u2 v2)
  /\ (exists (shown_root : Mini.obj) (u : R),
        Mini.py_str shown_root = "2.000"
        /\ Mini.is_real shown_root u
        /\ within_4_digits u (Q2R (- (-4) / (2 * 1)))).
Proof.
  split; [vm_compute; reflexivity |].
  split; [vm_compute; reflexivity |].
  split.
  - destruct (@quadratic_roots Mini.sympy Mini.is_poly Mini.is_real
                (Mini.form false "x**2 - 4 = 0") "x**2 - 4 " " 0"
                (Mini.Poly (Mini.psub (Mini.ppow [0; 1]%Q 2) [4%Q]))
                (Mini.Poly [0%Q])
                1%Q 0%Q (-4)%Q MiniFacts.mini_lawful)
      as (expr & _ & Htwo & _).
    + reflexivity.
    + vm_compute; reflexivity.
    + vm_compute; reflexivity.
    + vm_compute; reflexivity.
    + repeat split; reflexivity.
    + repeat split; reflexivity.
    + intros H; vm_compute in H; discriminate H.
    + destruct (Htwo eq_refl)
        as (r1 & r2 & shown1 & shown2 & v1 & v2 & u1 & u2 & _ & _ & _
            & Hformula & Hdistinct & _ & H1 & Hc1 & H2 & Hc2).
      exists shown1, shown2, v1, v2, u1, u2. repeat split; assumption.
  - destruct (@quadratic_roots Mini.sympy Mini.is_poly Mini.is_real
                (Mini.form false "x**2 - 4*x + 4 = 0") "x**2 - 4*x + 4 " " 0"
                (Mini.Poly (Mini.padd
                              (Mini.psub (Mini.ppow [0; 1]%Q 2)
                                         (Mini.pmul [4%Q] [0; 1]%Q))
                              [4%Q]))
                (Mini.Poly [0%Q])
                1%Q (-4)%Q 4%Q MiniFacts.mini_lawful)
      as (expr & _ & _ & Hone).
    + reflexivity.
    + vm_compute; reflexivity.
    + vm_compute; reflexivity.
    + vm_compute; reflexivity.
    + repeat split; reflexivity.
    + repeat split; reflexivity.
    + intros H; vm_compute in H; discriminate H.
    + destruct (Hone eq_refl)
        as (root & shown_root & u & _ & _ & Hrun & Hreal & Hclose).
      exists shown_root, u. split; [| split; assumption].
      apply (PyStrStrip.append_cancel
               ("Корень уравнения (кратный):" ++ PyStr.nl ++ "x = ")).
      assert (Hconcrete :
                run (@solve Mini.sympy)
                    (Mini.form false "x**2 - 4*x + 4 = 0")
                = shown (("Корень уравнения (кратный):" ++ PyStr.nl ++ "x = ")
                         ++ "2.000")
                        (Mini.form false "x**2 - 4*x + 4 = 0"))
        by (vm_compute; reflexivity).
      rewrite Hconcrete in Hrun.
      apply (f_equal (fun result : exn + (unit * EquationSolver) =>
                        match result with
                        | inr (_, w) => result_label_text w
                        | inl _ => ""
                        end)) in Hrun.
      symmetry. exact Hrun.
Defined.

End MiniRuns.
